(** * JitHashTable (src/coreclr/jit/jithashtable.h)

    A shallow embedding of the chained hash table of the JIT and of the
    magic-number remainder it indexes its buckets with.

    - [unsigned] values are integers of [Z] in [0, 2^32); every C++
      operation that can wrap is written with its reduction modulo 2^32.
    - A bucket chain (nodes linked through [m_next]) is the list of its
      nodes, head first; the bucket array [m_table] is an optional list of
      chains, [None] being [nullptr].
    - A call either returns or stops the program: a failed [assert] (the
      assertions are compiled in, as in a checked build), the [NoMemory]
      hook of the behaviour class, or an operation C++ leaves undefined
      (division by zero, a shift by the width of the operand, a read
      through [nullptr] or outside the bucket array).
    - The allocator is a collaborator of the table and is left out: an
      allocation returns, a deallocation has no effect on what the table
      holds. *)

From Stdlib Require Import ZArith Lia Bool.
From stdpp Require Import base list.

Local Open Scope Z_scope.

(** ** Outcomes of a call *)

Inductive error : Type :=
  | AssertFailure   (* an [assert] of the header does not hold *)
  | NoMemory        (* [Behavior::NoMemory()], which does not return *)
  | Undefined.      (* undefined behaviour of the C++ abstract machine *)

Inductive result (A : Type) : Type :=
  | Ok (a : A)
  | Err (e : error).

Arguments Ok {A} a.
Arguments Err {A} e.

Definition bind {A B : Type} (m : result A) (f : A -> result B) : result B :=
  match m with
  | Ok a => f a
  | Err e => Err e
  end.

Notation "'let!' x ':=' m 'in' f" := (bind m (fun x => f))
  (at level 10, x pattern, m at level 100, f at level 200,
   format "'[v' 'let!'  x  ':='  m  'in' '/' f ']'").

Definition assert (b : bool) : result unit :=
  if b then Ok tt else Err AssertFailure.

(** ** Unsigned 32-bit arithmetic *)

Definition UINT_RANGE : Z := 2 ^ 32.

Definition to_unsigned (z : Z) : Z := z mod UINT_RANGE.

Definition is_unsigned (z : Z) : Prop := 0 <= z < UINT_RANGE.

(** ** JitPrimeInfo *)

Record JitPrimeInfo : Type := mkPrimeInfo {
  prime : Z;
  magic : Z;
  shift : Z
}.

(** The default constructor [JitPrimeInfo()]. *)
Definition JitPrimeInfo0 : JitPrimeInfo := mkPrimeInfo 0 0 0.

(** [magicNumberDivide]: the product is formed in 64 bits, shifted right by
    [32 + shift] (an [unsigned] sum) and truncated to [unsigned].  A shift
    of a 64-bit value by 64 or more is undefined. *)
Definition magicNumberDivide (pi : JitPrimeInfo) (numerator : Z) : result Z :=
  let num := numerator in
  let mag := magic pi in
  let count := to_unsigned (32 + shift pi) in
  if count <? 64 then
    let product := Z.shiftr ((num * mag) mod 2 ^ 64) count in
    Ok (to_unsigned product)
  else Err Undefined.

(** [magicNumberRem]: [numerator - div * prime] in 32 bits, followed by the
    [assert] that compares it with [numerator % prime]; the [%] of that
    assertion divides by zero when [prime] is zero. *)
Definition magicNumberRem (pi : JitPrimeInfo) (numerator : Z) : result Z :=
  let! div := magicNumberDivide pi numerator in
  let res := to_unsigned (numerator - to_unsigned (div * prime pi)) in
  if prime pi =? 0 then Err Undefined
  else let! _ := assert (res =? numerator mod prime pi) in Ok res.

(** ** The static table of primes

    The header declares [extern const JitPrimeInfo jitPrimeInfo[27]] and
    leaves the initialiser to jithashtable.cpp.  The table is therefore a
    parameter [tbl] of everything below; what is assumed of it is written
    as boolean predicates on its entries. *)

(** The fields of an entry are [unsigned], the prime is not zero, and the
    shift count [32 + shift] stays below the 64 bits of the product. *)
Definition entry_wfb (pi : JitPrimeInfo) : bool :=
  (0 <? prime pi) && (prime pi <? UINT_RANGE) &&
  (0 <=? magic pi) && (magic pi <? UINT_RANGE) &&
  (0 <=? shift pi) && (shift pi <? 32).

(** Modelled from the spec: the entries of the static table [jitPrimeInfo],
    whose initialiser is not part of the header.  The spec describes each
    entry as a prime "paired with a precomputed magic multiplier and shift
    enabling remainder-by-prime without a hardware divide", and the header
    points to Hacker's Delight 10.9 and to magic numbers of 32 bits.  For a
    divisor [p], a multiplier [m] and a shift [s] that is the condition
    [2^(32+s) <= m * p <= 2^(32+s) + 2^s]. *)
Definition magic_okb (pi : JitPrimeInfo) : bool :=
  entry_wfb pi &&
  (2 ^ (32 + shift pi) <=? magic pi * prime pi) &&
  (magic pi * prime pi <=? 2 ^ (32 + shift pi) + 2 ^ shift pi).

(** Modelled from the spec: the static table [jitPrimeInfo] as a whole, "a
    fixed ascending list", every entry of which carries a magic multiplier
    and shift for its prime. *)
Fixpoint ascendingb (tbl : list JitPrimeInfo) : bool :=
  match tbl with
  | a :: (b :: _) as rest => (prime a <? prime b) && ascendingb rest
  | _ => true
  end.

Definition prime_table_ok (tbl : list JitPrimeInfo) : Prop :=
  forallb magic_okb tbl = true /\ ascendingb tbl = true.

(** Modelled from the spec: an instance of the static table, of the 27
    entries the header declares: ascending, each entry roughly twice the
    one before it, each with a 32-bit magic number.  It is used wherever a
    concrete table is needed; the general statements do not depend on
    it, and none of them uses that an entry is a prime number. *)
Definition jitPrimeInfo : list JitPrimeInfo :=
  [ mkPrimeInfo 9         0x38e38e39 1;
    mkPrimeInfo 23        0xb21642c9 4;
    mkPrimeInfo 59        0x22b63cbf 3;
    mkPrimeInfo 131       0xfa232cf3 7;
    mkPrimeInfo 239       0x891ac73b 7;
    mkPrimeInfo 433       0x975a751  4;
    mkPrimeInfo 761       0x561e46a5 8;
    mkPrimeInfo 1399      0xbb612aa3 10;
    mkPrimeInfo 2473      0x6a009f01 10;
    mkPrimeInfo 4327      0xf2555049 12;
    mkPrimeInfo 7499      0x45ea155f 11;
    mkPrimeInfo 12973     0x1434f6d3 10;
    mkPrimeInfo 22433     0x2ebe18db 12;
    mkPrimeInfo 46559     0xb42bebd5 15;
    mkPrimeInfo 96581     0xadb61b1b 16;
    mkPrimeInfo 200341    0x29df2461 15;
    mkPrimeInfo 415517    0xa181c46d 18;
    mkPrimeInfo 861719    0x4de0bde5 18;
    mkPrimeInfo 1787021   0x9636c46f 20;
    mkPrimeInfo 3705617   0x4870adc1 20;
    mkPrimeInfo 7684087   0x8bbc5b83 22;
    mkPrimeInfo 15933877  0x86c65361 23;
    mkPrimeInfo 33040633  0x40fec79b 23;
    mkPrimeInfo 68513161  0x7d605cd1 25;
    mkPrimeInfo 142069021 0xf1da390b 27;
    mkPrimeInfo 294594427 0x74a2507d 27;
    mkPrimeInfo 733045421 0x5dbec447 28 ].

(** ** Policy collaborators *)

(** The [Behavior] template parameter: the five static constants.  The
    denominators are constants of the instantiation and are not zero. *)
Class Behavior : Type := {
  s_growth_factor_numerator : Z;
  s_growth_factor_denominator : Z;
  s_density_factor_numerator : Z;
  s_density_factor_denominator : Z;
  s_minimum_allocation : Z
}.

#[export] Instance JitHashTableBehavior : Behavior := {|
  s_growth_factor_numerator := 3;
  s_growth_factor_denominator := 2;
  s_density_factor_numerator := 3;
  s_density_factor_denominator := 4;
  s_minimum_allocation := 7
|}.

(** The [KeyFuncs] template parameter. *)
Class KeyFuncs (Key : Type) : Type := {
  GetHashCode : Key -> Z;
  Equals : Key -> Key -> bool
}.

(** What the table expects of a [KeyFuncs]: [Equals] is an equivalence and
    equal keys have equal hash codes. *)
Class KeyFuncsLaws (Key : Type) `{KeyFuncs Key} : Prop := {
  Equals_refl : forall a : Key, Equals a a = true;
  Equals_sym : forall a b : Key, Equals a b = Equals b a;
  Equals_trans : forall a b c : Key,
    Equals a b = true -> Equals b c = true -> Equals a c = true;
  Equals_hash : forall a b : Key,
    Equals a b = true -> GetHashCode a = GetHashCode b
}.

(** [JitSmallPrimitiveKeyFuncs<unsigned>]: [==] and [static_cast<unsigned>]. *)
#[export] Instance JitSmallPrimitiveKeyFuncs : KeyFuncs Z := {|
  GetHashCode := fun val => to_unsigned val;
  Equals := fun x y => x =? y
|}.

(** The capacity threshold of a bucket array of [size] slots, as
    [Reallocate] computes it. *)
Definition density_threshold `{Behavior} (size : Z) : Z :=
  to_unsigned (size * s_density_factor_numerator) / s_density_factor_denominator.

(** Modelled from the spec: the spacing of the static table [jitPrimeInfo],
    whose initialiser is not part of the header: "primes, each roughly twice
    as big as the next".  What is used of it is that no entry lies between a
    larger entry and that entry's capacity threshold. *)
Definition table_spacedb `{Behavior} (tbl : list JitPrimeInfo) : bool :=
  forallb (fun b =>
    forallb (fun a =>
      (prime b <=? prime a) || (prime a <? density_threshold (prime b))) tbl) tbl.

(** ** The hash table *)

Inductive SetKind : Type :=
  | KindNone      (* [None]: overwriting is not allowed *)
  | Overwrite.

Section JitHashTable.

Context {Key Value : Type} `{KeyFuncs Key} `{Behavior}.

(** The static table [jitPrimeInfo]. *)
Variable tbl : list JitPrimeInfo.

(** A node without its [m_next] link, which is the rest of the chain. *)
Record Node : Type := mkNode {
  m_key : Key;
  m_val : Value
}.

Definition chain : Type := list Node.

Record JitHashTable : Type := mkTable {
  m_table : option (list chain);
  m_tableSizeInfo : JitPrimeInfo;
  m_tableCount : Z;
  m_tableMax : Z
}.

(** The constructor: no bucket array, a zero descriptor. *)
Definition empty_table : JitHashTable := mkTable None JitPrimeInfo0 0 0.

Definition GetCount (s : JitHashTable) : Z := m_tableCount s.

(** [table[index]] as a read. *)
Definition read_bucket (table : option (list chain)) (index : Z) : result chain :=
  match table with
  | None => Err Undefined
  | Some buckets =>
      match buckets !! Z.to_nat index with
      | Some head => Ok head
      | None => Err Undefined
      end
  end.

(** [m_table[index] = head], after [m_table[index]] has been read. *)
Definition write_bucket (s : JitHashTable) (index : Z) (head : chain) : JitHashTable :=
  mkTable (option_map (fun buckets => <[Z.to_nat index := head]> buckets) (m_table s))
          (m_tableSizeInfo s) (m_tableCount s) (m_tableMax s).

Definition set_count (s : JitHashTable) (count : Z) : JitHashTable :=
  mkTable (m_table s) (m_tableSizeInfo s) count (m_tableMax s).

(** The loop [while ((pN != nullptr) && !KeyFuncs::Equals(k, pN->m_key))
    pN = pN->m_next]: the node it stops at, [None] for [nullptr]. *)
Fixpoint find_node (k : Key) (pN : chain) : option Node :=
  match pN with
  | [] => None
  | n :: next => if Equals k (m_key n) then Some n else find_node k next
  end.

(** [pN->m_val = v] at the node the loop stops at. *)
Fixpoint store_val (k : Key) (v : Value) (pN : chain) : chain :=
  match pN with
  | [] => []
  | n :: next =>
      if Equals k (m_key n) then mkNode (m_key n) v :: next
      else n :: store_val k v next
  end.

(** [*ppN = pN->m_next] at the node the loop stops at. *)
Fixpoint unlink (k : Key) (pN : chain) : chain :=
  match pN with
  | [] => []
  | n :: next => if Equals k (m_key n) then next else n :: unlink k next
  end.

(** [KeyFuncs::GetHashCode(k)] as the [unsigned] it is assigned to. *)
Definition hash_of (k : Key) : Z := to_unsigned (GetHashCode k).

Definition GetIndexForKey (s : JitHashTable) (k : Key) : result Z :=
  let hash := hash_of k in
  magicNumberRem (m_tableSizeInfo s) hash.

Definition FindNode (s : JitHashTable) (k : Key) : result (option Node) :=
  if prime (m_tableSizeInfo s) =? 0 then Ok None
  else
    let! index := GetIndexForKey s k in
    let! pN := read_bucket (m_table s) index in
    match pN with
    | [] => Ok None
    | _ => Ok (find_node k pN)
    end.

(** [Lookup].  The argument [pVal] is [None] for [nullptr] and [Some old]
    for a pointer to a location that holds [old]; the result carries the
    contents of that location after the call.  The method is [const]: it
    has no table to return. *)
Definition Lookup (s : JitHashTable) (k : Key) (pVal : option Value)
  : result (bool * option Value) :=
  let! pN := FindNode s k in
  match pN with
  | Some n =>
      Ok (true, match pVal with Some _ => Some (m_val n) | None => None end)
  | None => Ok (false, pVal)
  end.

(** [LookupPointer]: the value the returned pointer points to. *)
Definition LookupPointer (s : JitHashTable) (k : Key) : result (option Value) :=
  let! pN := FindNode s k in
  Ok (option_map m_val pN).

(** [NextPrime]: the first entry of the table that is large enough. *)
Fixpoint NextPrime_from (primes : list JitPrimeInfo) (number : Z) : result JitPrimeInfo :=
  match primes with
  | [] => Err NoMemory
  | pi :: rest =>
      if number <=? prime pi then Ok pi else NextPrime_from rest number
  end.

Definition NextPrime (number : Z) : result JitPrimeInfo :=
  NextPrime_from tbl number.

(** The nodes of the buckets [i, i + n) in the order in which the two
    nested loops of [Reallocate] reach them. *)
Fixpoint nodes_from (table : option (list chain)) (i : Z) (n : nat) : result (list Node) :=
  match n with
  | O => Ok []
  | S n' =>
      let! head := read_bucket table i in
      let! rest := nodes_from table (i + 1) n' in
      Ok (head ++ rest)
  end.

(** The body of the inner loop of [Reallocate]: [pN] is linked in front
    of its new bucket. *)
Definition relink (newPrime : JitPrimeInfo) (newTable : list chain) (pN : Node)
  : result (list chain) :=
  let! newIndex := magicNumberRem newPrime (hash_of (m_key pN)) in
  let! head := read_bucket (Some newTable) newIndex in
  Ok (<[Z.to_nat newIndex := pN :: head]> newTable).

Fixpoint relink_all (newPrime : JitPrimeInfo) (newTable : list chain) (nodes : list Node)
  : result (list chain) :=
  match nodes with
  | [] => Ok newTable
  | pN :: rest =>
      let! newTable := relink newPrime newTable pN in
      relink_all newPrime newTable rest
  end.

Definition Reallocate (s : JitHashTable) (newTableSize : Z) : result JitHashTable :=
  let! _ := assert (to_unsigned (GetCount s * s_density_factor_denominator)
                      / s_density_factor_numerator <=? newTableSize) in
  let! newPrime := NextPrime newTableSize in
  let newTableSize := prime newPrime in
  let newTable := replicate (Z.to_nat newTableSize) ([] : chain) in
  let! nodes := nodes_from (m_table s) 0 (Z.to_nat (prime (m_tableSizeInfo s))) in
  let! newTable := relink_all newPrime newTable nodes in
  Ok (mkTable (Some newTable) newPrime (m_tableCount s) (density_threshold newTableSize)).

(** The size [Grow] asks for, before the clamp to the minimum: every
    product is taken in 32 bits and every quotient is truncated. *)
Definition grow_request (count : Z) : Z :=
  to_unsigned (to_unsigned (count * s_growth_factor_numerator)
                 / s_growth_factor_denominator * s_density_factor_denominator)
    / s_density_factor_numerator.

Definition Grow (s : JitHashTable) : result JitHashTable :=
  let newSize := grow_request (m_tableCount s) in
  let newSize := if newSize <? s_minimum_allocation then s_minimum_allocation else newSize in
  if newSize <? m_tableCount s then Err NoMemory
  else Reallocate s newSize.

Definition CheckGrowth (s : JitHashTable) : result JitHashTable :=
  if m_tableCount s =? m_tableMax s then Grow s else Ok s.

(** The common head of the three insertion paths: growth check, the
    assertion on the prime, the bucket of the key. *)
Definition locate (s : JitHashTable) (k : Key) : result (JitHashTable * Z * chain) :=
  let! s := CheckGrowth s in
  let! _ := assert (negb (prime (m_tableSizeInfo s) =? 0)) in
  let! index := GetIndexForKey s k in
  let! head := read_bucket (m_table s) index in
  Ok (s, index, head).

(** A new node in front of the chain, [m_tableCount++]. *)
Definition link_front (s : JitHashTable) (index : Z) (head : chain) (k : Key) (v : Value)
  : JitHashTable :=
  set_count (write_bucket s index (mkNode k v :: head)) (to_unsigned (m_tableCount s + 1)).

(** [Set] (the name is reserved in Rocq). *)
Definition Set_ (s : JitHashTable) (k : Key) (v : Value) (kind : SetKind)
  : result (bool * JitHashTable) :=
  let! located := locate s k in
  let '(s, index, head) := located in
  match find_node k head with
  | Some _ =>
      let! _ := assert (match kind with Overwrite => true | KindNone => false end) in
      Ok (true, write_bucket s index (store_val k v head))
  | None => Ok (false, link_front s index head k v)
  end.

(** [LookupPointerOrAdd]: the value the returned pointer points to. *)
Definition LookupPointerOrAdd (s : JitHashTable) (k : Key) (defaultValue : Value)
  : result (Value * JitHashTable) :=
  let! located := locate s k in
  let '(s, index, head) := located in
  match find_node k head with
  | Some n => Ok (m_val n, s)
  | None => Ok (defaultValue, link_front s index head k defaultValue)
  end.

(** [Emplace], with the value the constructor arguments build. *)
Definition Emplace (s : JitHashTable) (k : Key) (v : Value)
  : result (Value * JitHashTable) :=
  let! located := locate s k in
  let '(s, index, head) := located in
  match find_node k head with
  | Some n => Ok (m_val n, s)
  | None => Ok (v, link_front s index head k v)
  end.

Definition Remove (s : JitHashTable) (k : Key) : result (bool * JitHashTable) :=
  let! index := GetIndexForKey s k in
  let! head := read_bucket (m_table s) index in
  match find_node k head with
  | Some _ =>
      Ok (true, set_count (write_bucket s index (unlink k head))
                          (to_unsigned (m_tableCount s - 1)))
  | None => Ok (false, s)
  end.

(** [RemoveAll]: every node and the bucket array are freed, the members
    are reset. *)
Definition RemoveAll (s : JitHashTable) : JitHashTable :=
  mkTable None JitPrimeInfo0 0 0.

(** ** Iteration *)

(** [NodeIterator].  The pointer [m_node] is the chain from the node it
    points to on, [[]] for [nullptr]. *)
Record NodeIterator : Type := mkIterator {
  it_table : option (list chain);
  it_node : chain;
  it_tableSize : Z;
  it_index : Z
}.

(** The loop [while ((m_index < m_tableSize) && (m_table[m_index] ==
    nullptr)) m_index++], which runs at most [m_tableSize - m_index]
    times: [n] is that bound. *)
Fixpoint skip_empty (n : nat) (table : option (list chain)) (tableSize index : Z)
  : result Z :=
  match n with
  | O => Ok index
  | S n' =>
      if index <? tableSize then
        let! head := read_bucket table index in
        match head with
        | [] => skip_empty n' table tableSize (index + 1)
        | _ => Ok index
        end
      else Ok index
  end.

(** The common tail of the constructor and of [Next]: skip the empty
    buckets, then point to the head of the bucket reached, if any. *)
Definition settle (table : option (list chain)) (tableSize index : Z)
  : result NodeIterator :=
  let! index := skip_empty (Z.to_nat (tableSize - index)) table tableSize index in
  if index <? tableSize then
    let! head := read_bucket table index in
    let! _ := assert (match head with [] => false | _ => true end) in
    Ok (mkIterator table head tableSize index)
  else Ok (mkIterator table [] tableSize index).

Definition NodeIterator_new (hash : JitHashTable) (begin : bool) : result NodeIterator :=
  let table := m_table hash in
  let tableSize := prime (m_tableSizeInfo hash) in
  let index := if begin then 0 else tableSize in
  if begin && (0 <? m_tableCount hash) then
    let! _ := assert (match table with Some _ => true | None => false end) in
    settle table tableSize index
  else Ok (mkIterator table [] tableSize index).

Definition Next (it : NodeIterator) : result NodeIterator :=
  match it_node it with
  | _ :: (_ :: _) as next =>
      Ok (mkIterator (it_table it) next (it_tableSize it) (it_index it))
  | [_] => settle (it_table it) (it_tableSize it) (it_index it + 1)
  | [] => settle (it_table it) (it_tableSize it) (it_index it)
  end.

(** [operator!=] compares the two [m_node] pointers.  Two iterators of one
    table point to the same node when they are in the same bucket with
    the same number of nodes ahead. *)
Definition iterator_neq (a i : NodeIterator) : bool :=
  match it_node i, it_node a with
  | [], [] => false
  | _ :: _, _ :: _ =>
      negb ((it_index i =? it_index a)
            && (Nat.eqb (length (it_node i)) (length (it_node a))))
  | _, _ => true
  end.

(** [for (it = begin; it != end; ++it)] with one visit of the node at [it]
    per turn: the nodes visited, or
    [None] when [fuel] iterations were not enough to reach [end]. *)
Fixpoint for_range (fuel : nat) (it end_ : NodeIterator) : result (option (list Node)) :=
  if iterator_neq it end_ then
    match fuel with
    | O => Ok None
    | S fuel' =>
        match it_node it with
        | [] => Err Undefined
        | n :: _ =>
            let! it' := Next it in
            let! visited := for_range fuel' it' end_ in
            Ok (option_map (cons n) visited)
        end
    end
  else Ok (Some []).




(** ** Sequences of calls

    The calls of the header that change the table or look a key up. *)

Inductive op : Type :=
  | OpSet (k : Key) (v : Value) (kind : SetKind)
  | OpLookupPointerOrAdd (k : Key) (defaultValue : Value)
  | OpEmplace (k : Key) (v : Value)
  | OpRemove (k : Key)
  | OpRemoveAll
  | OpReallocate (newTableSize : Z)
  | OpLookup (k : Key).

(** One call on the table; the table after it. *)
Definition step (s : JitHashTable) (o : op) : result JitHashTable :=
  match o with
  | OpSet k v kind => let! r := Set_ s k v kind in Ok (snd r)
  | OpLookupPointerOrAdd k d => let! r := LookupPointerOrAdd s k d in Ok (snd r)
  | OpEmplace k v => let! r := Emplace s k v in Ok (snd r)
  | OpRemove k => let! r := Remove s k in Ok (snd r)
  | OpRemoveAll => Ok (RemoveAll s)
  | OpReallocate n => Reallocate s (to_unsigned n)
  | OpLookup k => let! _ := Lookup s k None in Ok s
  end.

Fixpoint run (s : JitHashTable) (ops : list op) : result JitHashTable :=
  match ops with
  | [] => Ok s
  | o :: rest => let! s' := step s o in run s' rest
  end.

(** The tables a program can build: those a sequence of calls that all
    return leads to from the constructor. *)
Definition reachable (s : JitHashTable) : Prop :=
  exists ops, run empty_table ops = Ok s.

(** All the nodes of the table, bucket by bucket. *)
Definition entries (s : JitHashTable) : list Node :=
  match m_table s with
  | Some buckets => concat buckets
  | None => []
  end.

(** The number of slots of the bucket array. *)
Definition bucket_count (s : JitHashTable) : Z := prime (m_tableSizeInfo s).

(** ** The table as the spec describes it

    The spec speaks of the value last set for a key and of keys going in
    and out.  [spec_contents] keeps, for a sequence of calls and without
    buckets or chains, the value last set for each key that is in
    ([spec_value]) and two counters: [spec_inserted], the insertions
    that put a key in -- those of a key that is not in at that time, so
    a key that is removed and inserted again counts again -- and
    [spec_removed], the keys taken out -- by [Remove] of a key that is
    in, and all the keys that are in by [RemoveAll]. *)

Record spec_contents : Type := mkContents {
  spec_value : Key -> option Value;   (* the value last set, if the key is in *)
  spec_inserted : Z;                  (* insertions of a key that was not in *)
  spec_removed : Z                    (* keys taken out *)
}.

Definition spec_empty : spec_contents := mkContents (fun _ => None) 0 0.

Definition spec_assign (c : spec_contents) (k : Key) (v : option Value) : Key -> option Value :=
  fun x => if Equals k x then v else spec_value c x.

(** An insertion: a key that is absent is inserted with [v]; a key that
    is present keeps its value unless [overwrite]. *)
Definition spec_insert (c : spec_contents) (k : Key) (v : Value) (overwrite : bool)
  : spec_contents :=
  match spec_value c k with
  | Some _ =>
      if overwrite then mkContents (spec_assign c k (Some v)) (spec_inserted c) (spec_removed c)
      else c
  | None => mkContents (spec_assign c k (Some v)) (spec_inserted c + 1) (spec_removed c)
  end.

Definition spec_remove (c : spec_contents) (k : Key) : spec_contents :=
  match spec_value c k with
  | Some _ => mkContents (spec_assign c k None) (spec_inserted c) (spec_removed c + 1)
  | None => c
  end.

(** [Set] replaces the value of a key that is in; without [Overwrite] it
    is a contract violation, and the program does not go on from it. *)
Definition spec_step (c : spec_contents) (o : op) : spec_contents :=
  match o with
  | OpSet k v _ => spec_insert c k v true
  | OpLookupPointerOrAdd k d => spec_insert c k d false
  | OpEmplace k v => spec_insert c k v false
  | OpRemove k => spec_remove c k
  | OpRemoveAll => mkContents (fun _ => None) (spec_inserted c) (spec_inserted c)
  | OpReallocate _ => c
  | OpLookup _ => c
  end.

Definition spec_run (ops : list op) : spec_contents :=
  fold_left spec_step ops spec_empty.

(** The count in the words of the spec: "(distinct keys ever inserted) -
    (keys removed)".  The keys ever inserted are those of the insertion
    calls, each counted once however often it goes in. *)
Definition inserted_key (o : op) : option Key :=
  match o with
  | OpSet k _ _ | OpLookupPointerOrAdd k _ | OpEmplace k _ => Some k
  | _ => None
  end.

Fixpoint count_distinct (l : list Key) : Z :=
  match l with
  | [] => 0
  | k :: l' =>
      if existsb (Equals k) l' then count_distinct l' else count_distinct l' + 1
  end.

Definition distinct_keys_ever_inserted (ops : list op) : Z :=
  count_distinct (omap inserted_key ops).

Definition keys_removed (ops : list op) : Z := spec_removed (spec_run ops).

Definition claimed_count (ops : list op) : Z :=
  distinct_keys_ever_inserted ops - keys_removed ops.

End JitHashTable.

Arguments Node : clear implicits.
Arguments chain : clear implicits.
Arguments JitHashTable : clear implicits.
Arguments NodeIterator : clear implicits.
Arguments op : clear implicits.
Arguments spec_contents : clear implicits.

(** ** The representation invariant *)

Section Invariant.

Context {Key Value : Type} `{KeyFuncs Key} `{Behavior}.

Variable tbl : list JitPrimeInfo.

(** No two nodes of the list have equal keys. *)
Fixpoint distinct_keys (l : list (Node Key Value)) : Prop :=
  match l with
  | [] => True
  | n :: rest =>
      Forall (fun m => Equals (m_key n) (m_key m) = false) rest /\ distinct_keys rest
  end.

(** Every node of bucket [i] has been indexed to [i] with the descriptor
    [pi] (and the assertion of [magicNumberRem] held for it). *)
Definition indexed_by (pi : JitPrimeInfo) (buckets : list (chain Key Value)) : Prop :=
  forall (i : nat) (head : chain Key Value) (n : Node Key Value),
    buckets !! i = Some head -> n ∈ head ->
    magicNumberRem pi (hash_of (m_key n)) = Ok (Z.of_nat i).

(** A table is either unallocated, as the constructor and [RemoveAll]
    leave it, or has a bucket array of the size of its descriptor, which
    comes from the static table; the threshold is that of the size; the
    count is the number of nodes, in 32 bits; every node is in the bucket
    of its key; no key is stored twice. *)
Definition well_formed (s : JitHashTable Key Value) : Prop :=
  match m_table s with
  | None =>
      m_tableSizeInfo s = JitPrimeInfo0 /\ m_tableCount s = 0 /\ m_tableMax s = 0
  | Some buckets =>
      m_tableSizeInfo s ∈ tbl /\
      length buckets = Z.to_nat (prime (m_tableSizeInfo s)) /\
      m_tableMax s = density_threshold (prime (m_tableSizeInfo s)) /\
      m_tableCount s = to_unsigned (Z.of_nat (length (concat buckets))) /\
      indexed_by (m_tableSizeInfo s) buckets /\
      distinct_keys (concat buckets)
  end.

(** The table agrees with the contents the spec speaks of: the same value
    for every key, and as many nodes as keys inserted and not removed. *)
Definition refines (s : JitHashTable Key Value) (c : spec_contents Key Value) : Prop :=
  (forall x : Key, option_map m_val (find_node x (entries s)) = spec_value c x) /\
  Z.of_nat (length (entries s)) = spec_inserted c - spec_removed c.


End Invariant.

(** ** Tables used in the examples

    Keys and values are [unsigned], hashed by [JitSmallPrimitiveKeyFuncs],
    with the default behaviour and the table [jitPrimeInfo] above. *)

Definition example_ops : list (op Z Z) :=
  [ OpSet 1 10 KindNone; OpSet 2 20 KindNone; OpSet 10 100 KindNone;
    OpSet 2 21 Overwrite; OpRemove 1; OpLookupPointerOrAdd 4 40;
    OpEmplace 2 22; OpReallocate 20; OpLookup 3 ].

Definition example_table : JitHashTable Z Z :=
  Eval vm_compute in
    match run jitPrimeInfo empty_table example_ops with
    | Ok s => s
    | Err _ => empty_table
    end.

(** A key that goes in, out and in again. *)
Definition reinsert_ops : list (op Z Z) :=
  [ OpSet 1 10 KindNone; OpRemove 1; OpSet 1 11 KindNone ].

(** The first five insertions of the growth scenario. *)
Definition five_keys_ops : list (op Z Z) :=
  [ OpSet 1 10 KindNone; OpSet 2 20 KindNone; OpSet 3 30 KindNone;
    OpSet 4 40 KindNone; OpSet 5 50 KindNone ].

Definition example_small_ops : list (op Z Z) :=
  [ OpSet 1 10 KindNone; OpSet 2 20 KindNone ].

Definition example_small : JitHashTable Z Z :=
  Eval vm_compute in
    match run jitPrimeInfo empty_table example_small_ops with
    | Ok s => s
    | Err _ => empty_table
    end.

Definition example_rehashed : JitHashTable Z Z :=
  Eval vm_compute in
    match Reallocate jitPrimeInfo example_small 10 with
    | Ok s => s
    | Err _ => empty_table
    end.

Definition example_grown : JitHashTable Z Z :=
  Eval vm_compute in
    match step jitPrimeInfo example_small (OpSet 3 30 KindNone) with
    | Ok s => s
    | Err _ => empty_table
    end.

(** ** More of the header: indexed access, hash helpers *)

Section MoreOperations.

Context {Key Value : Type} `{KeyFuncs Key} `{Behavior}.

(** [operator[]]: [LookupPointer], the assertion on the pointer, and the
    value the reference returned refers to. *)
Definition subscript (s : JitHashTable Key Value) (k : Key) : result Value :=
  let! p := LookupPointer s k in
  let! _ := assert (match p with Some _ => true | None => false end) in
  match p with
  | Some v => Ok v
  | None => Err Undefined
  end.

(** The value the table holds for a key, if it holds the key: the value
    of the first node with that key among all the nodes. *)
Definition value_of (s : JitHashTable Key Value) (k : Key) : option Value :=
  option_map m_val (find_node k (entries s)).

(** What [Lookup] returns for a key with the value [held]. *)
Definition lookup_result (held pVal : option Value) : bool * option Value :=
  match held with
  | Some v => (true, match pVal with Some _ => Some v | None => None end)
  | None => (false, pVal)
  end.

(** The table in the spec's terms, with its nodes counted as inserted. *)
Definition contents_of (s : JitHashTable Key Value) : spec_contents Key Value :=
  mkContents (value_of s) (Z.of_nat (length (entries s))) 0.

(** The calls that go through [CheckGrowth]. *)
Definition is_insertion (o : op Key Value) : bool :=
  match o with
  | OpSet _ _ _ | OpLookupPointerOrAdd _ _ | OpEmplace _ _ => true
  | _ => false
  end.

Definition is_Reallocate (o : op Key Value) : bool :=
  match o with
  | OpReallocate _ => true
  | _ => false
  end.

(** The size [Grow] passes to [Reallocate]: the request, at least the
    minimum allocation. *)
Definition grow_size (count : Z) : Z :=
  Z.max (grow_request count) s_minimum_allocation.

End MoreOperations.

(** The products [prime * s_density_factor_numerator] of [Reallocate] do not
    wrap for the entries of the table. *)
Definition table_roomyb `{Behavior} (tbl : list JitPrimeInfo) : bool :=
  forallb (fun pi =>
    (0 <=? prime pi) && (prime pi * s_density_factor_numerator <? UINT_RANGE)) tbl.

(** [JitPtrKeyFuncs<T>::GetHashCode]: the address, cast to [uintptr_t] and
    then to [unsigned]. *)
Definition JitPtrKeyFuncs_GetHashCode (ptr : Z) : Z := to_unsigned ptr.

(** [JitLargePrimitiveKeyFuncs<T>::GetHashCode] for a [T] of [size] bytes.
    For 8 and 4 bytes [val] is the object representation of the key read as
    an unsigned integer ([*reinterpret_cast<const UINT64*>(&val)]); for 2
    and 1 bytes it is the integer value of the key, which is cast. *)
Definition JitLargePrimitiveKeyFuncs_GetHashCode (size val : Z) : result Z :=
  if size =? 8 then
    let asUINT64 := val mod 2 ^ 64 in
    let upper32 := to_unsigned (Z.shiftr asUINT64 32) in
    let lower32 := to_unsigned (Z.land asUINT64 0xFFFFFFFF) in
    Ok (to_unsigned (Z.lxor upper32 lower32))
  else if size =? 4 then
    let asUINT32 := val mod 2 ^ 32 in
    Ok (to_unsigned asUINT32)
  else if (size =? 2) || (size =? 1) then Ok (to_unsigned val)
  else Err AssertFailure.

(** A table with the single entry 9, for the calls that run out of primes. *)
Definition one_entry_table : list JitPrimeInfo := [ mkPrimeInfo 9 0x38e38e39 1 ].

Definition six_keys_ops : list (op Z Z) :=
  [ OpSet 1 10 KindNone; OpSet 2 20 KindNone; OpSet 3 30 KindNone;
    OpSet 4 40 KindNone; OpSet 5 50 KindNone; OpSet 6 60 KindNone ].

Definition six_keys_table : JitHashTable Z Z :=
  Eval vm_compute in
    match run jitPrimeInfo empty_table six_keys_ops with
    | Ok s => s
    | Err _ => empty_table
    end.

(** The table holds no more nodes than its threshold, and the threshold is
    in the range of the counter. *)
Definition within_threshold {Key Value : Type} (s : JitHashTable Key Value) : Prop :=
  Z.of_nat (length (entries s)) <= m_tableMax s < UINT_RANGE.

(** Seven keys, then a [Reallocate] to nine slots. *)
Definition seven_keys_then_Reallocate : list (op Z Z) :=
  six_keys_ops ++ [ OpSet 7 70 KindNone; OpReallocate 9 ].

(** The tables the examples below start from and arrive at. *)
Definition example_small_buckets : list (chain Z Z) :=
  Eval vm_compute in
    match m_table example_small with
    | Some buckets => buckets
    | None => []
    end.

Definition seven_keys_table : JitHashTable Z Z :=
  Eval vm_compute in
    match step jitPrimeInfo six_keys_table (OpSet 7 70 KindNone) with
    | Ok s => s
    | Err _ => empty_table
    end.

Definition example_removed : JitHashTable Z Z :=
  Eval vm_compute in
    match step jitPrimeInfo example_small (OpRemove 1) with
    | Ok s => s
    | Err _ => empty_table
    end.

Definition example_overwritten : JitHashTable Z Z :=
  Eval vm_compute in
    match step jitPrimeInfo example_small (OpSet 2 99 Overwrite) with
    | Ok s => s
    | Err _ => empty_table
    end.
(** * Properties *)

(** ** The outcome monad and unsigned arithmetic *)

Lemma bind_Ok {A B : Type} (m : result A) (f : A -> result B) (b : B) :
  bind m f = Ok b -> exists a, m = Ok a /\ f a = Ok b.
Proof. destruct m as [a|e]; simpl; [eauto | discriminate]. Qed.

Lemma assert_Ok (b : bool) (u : unit) : assert b = Ok u -> b = true.
Proof. destruct b; [reflexivity | discriminate]. Qed.

Lemma to_unsigned_range (z : Z) : is_unsigned (to_unsigned z).
Proof. unfold is_unsigned, to_unsigned, UINT_RANGE. apply Z.mod_pos_bound. lia. Qed.

Lemma to_unsigned_small (z : Z) : is_unsigned z -> to_unsigned z = z.
Proof. unfold is_unsigned, to_unsigned. intros H. apply Z.mod_small. exact H. Qed.

(** Whatever [magicNumberRem] returns is the ordinary remainder: the
    assertion has compared the two. *)
Lemma magicNumberRem_Ok (pi : JitPrimeInfo) (x r : Z) :
  magicNumberRem pi x = Ok r -> prime pi <> 0 /\ r = x mod prime pi.
Proof.
  unfold magicNumberRem. intros H. apply bind_Ok in H as (div & _ & H).
  destruct (Z.eqb_spec (prime pi) 0) as [|Hp]; [discriminate|].
  apply bind_Ok in H as [u [Ha Hr]]. apply assert_Ok in Ha.
  apply Z.eqb_eq in Ha. inversion Hr; subst. split; [exact Hp | exact Ha].
Qed.

Lemma magicNumberRem_nonneg (pi : JitPrimeInfo) (x r : Z) :
  magicNumberRem pi x = Ok r -> 0 <= r.
Proof.
  unfold magicNumberRem. intros H. apply bind_Ok in H as (div & _ & H).
  destruct (prime pi =? 0); [discriminate|].
  apply bind_Ok in H as [u [_ Hr]]. inversion Hr.
  apply to_unsigned_range.
Qed.

(** ** Exactness of the magic-number remainder *)

Lemma magic_okb_spec (pi : JitPrimeInfo) :
  magic_okb pi = true ->
  0 < prime pi < 2 ^ 32 /\ 0 <= magic pi < 2 ^ 32 /\ 0 <= shift pi < 32 /\
  2 ^ (32 + shift pi) <= magic pi * prime pi <= 2 ^ (32 + shift pi) + 2 ^ shift pi.
Proof.
  unfold magic_okb, entry_wfb, UINT_RANGE. intros H.
  repeat (apply andb_prop in H as [H ?]). lia.
Qed.

(** The quotient: for a descriptor that meets the magic-number condition
    the shifted 64-bit product is [x / prime]. *)
Lemma magicNumberDivide_exact (pi : JitPrimeInfo) (x : Z) :
  magic_okb pi = true -> is_unsigned x ->
  magicNumberDivide pi x = Ok (x / prime pi).
Proof.
  intros Hok Hx. apply magic_okb_spec in Hok as (Hp & Hm & Hs & Hlo & Hhi).
  unfold is_unsigned, UINT_RANGE in Hx.
  unfold magicNumberDivide.
  rewrite (to_unsigned_small (32 + shift pi))
    by (unfold is_unsigned, UINT_RANGE; lia).
  destruct (Z.ltb_spec (32 + shift pi) 64) as [_|]; [|lia].
  f_equal. unfold to_unsigned, UINT_RANGE.
  set (p := prime pi) in *. set (m := magic pi) in *. set (s := shift pi) in *.
  assert (Hpow : 2 ^ (32 + s) = 2 ^ 32 * 2 ^ s) by (apply Z.pow_add_r; lia).
  assert (Hs0 : 0 < 2 ^ s) by (apply Z.pow_pos_nonneg; lia).
  assert (H64 : (x * m) mod 2 ^ 64 = x * m).
  { apply Z.mod_small. change (2 ^ 64) with (2 ^ 32 * 2 ^ 32). nia. }
  rewrite H64, Z.shiftr_div_pow2 by lia.
  set (N := 2 ^ (32 + s)) in *.
  assert (HN : 0 < N) by lia.
  pose proof (Z.div_mod x p ltac:(lia)) as Hdm.
  pose proof (Z.mod_pos_bound x p ltac:(lia)) as Hr.
  set (q := x / p) in *. set (r := x mod p) in *.
  assert (Hq0 : 0 <= q) by (apply Z.div_pos; lia).
  assert (Hdiv : x * m / N = q).
  { symmetry. apply (Z.div_unique_pos (x * m) N q (x * m - N * q)); [|lia].
    split.
    - (* q * N <= x * m, since q * p <= x and N <= m * p *)
      assert (q * N * p <= x * m * p) by nia. nia.
    - (* x * m < (q + 1) * N, since x * (m * p - N) < N *)
      assert (x * (m * p - N) < N) by nia.
      assert (x * m * p < (q + 1) * N * p) by nia. nia. }
  rewrite Hdiv. apply Z.mod_small. nia.
Qed.

(** The remainder, and the assertion that guards it. *)
Lemma magicNumberRem_exact (pi : JitPrimeInfo) (x : Z) :
  magic_okb pi = true -> is_unsigned x ->
  magicNumberRem pi x = Ok (x mod prime pi).
Proof.
  intros Hok Hx. pose proof (magicNumberDivide_exact pi x Hok Hx) as Hdiv.
  apply magic_okb_spec in Hok as (Hp & _).
  unfold magicNumberRem. rewrite Hdiv. cbn [bind].
  destruct (Z.eqb_spec (prime pi) 0) as [|_]; [lia|].
  unfold is_unsigned, UINT_RANGE in Hx.
  pose proof (Z.div_mod x (prime pi) ltac:(lia)) as Hdm.
  pose proof (Z.mod_pos_bound x (prime pi) ltac:(lia)) as Hr.
  assert (Hq0 : 0 <= x / prime pi) by (apply Z.div_pos; lia).
  assert (H1 : to_unsigned (x / prime pi * prime pi) = x / prime pi * prime pi).
  { apply to_unsigned_small. unfold is_unsigned, UINT_RANGE. nia. }
  rewrite H1.
  assert (H2 : to_unsigned (x - x / prime pi * prime pi) = x mod prime pi).
  { replace (x - x / prime pi * prime pi) with (x mod prime pi) by lia.
    apply to_unsigned_small. unfold is_unsigned, UINT_RANGE. lia. }
  rewrite H2, Z.eqb_refl. reflexivity.
Qed.

(** ** Chains *)

Section Chains.

Context {Key Value : Type} `{KeyFuncsLaws Key}.

Implicit Types (k x : Key) (v : Value) (n : Node Key Value)
               (c l : list (Node Key Value)).

Lemma Equals_congr_l (a b x : Key) :
  Equals a b = true -> Equals a x = Equals b x.
Proof.
  intros Hab. destruct (Equals b x) eqn:Hbx.
  - exact (Equals_trans _ _ _ Hab Hbx).
  - destruct (Equals a x) eqn:Hax; [|reflexivity].
    rewrite Equals_sym in Hab.
    rewrite (Equals_trans _ _ _ Hab Hax) in Hbx. discriminate.
Qed.

Lemma Equals_congr_r (a b x : Key) :
  Equals a b = true -> Equals x a = Equals x b.
Proof.
  intros Hab. rewrite (Equals_sym x a), (Equals_sym x b).
  apply Equals_congr_l, Hab.
Qed.

Lemma find_node_Some k c n :
  find_node k c = Some n -> n ∈ c /\ Equals k (m_key n) = true.
Proof.
  induction c as [|a c IH]; simpl; [discriminate|].
  destruct (Equals k (m_key a)) eqn:E.
  - intros [= <-]. split; [left | exact E].
  - intros Hf. destruct (IH Hf) as [Hin He]. split; [right; exact Hin | exact He].
Qed.

Lemma find_node_None k c :
  find_node k c = None <-> Forall (fun n => Equals k (m_key n) = false) c.
Proof.
  induction c as [|a c IH]; simpl.
  - split; [constructor | reflexivity].
  - destruct (Equals k (m_key a)) eqn:E.
    + split; [discriminate|]. intros Hall. inversion Hall; congruence.
    + rewrite IH. split.
      * intros Hall. constructor; assumption.
      * intros Hall. inversion Hall; assumption.
Qed.

(** The node the loop stops at splits the chain; the store and the
    unlinking act at that place. *)
Lemma find_node_split k c n :
  find_node k c = Some n ->
  exists c1 c2, c = c1 ++ n :: c2 /\
    (forall v, store_val k v c = c1 ++ mkNode (m_key n) v :: c2) /\
    unlink k c = c1 ++ c2.
Proof.
  induction c as [|a c IH]; simpl; [discriminate|].
  destruct (Equals k (m_key a)) eqn:E.
  - intros [= <-]. exists [], c. simpl. auto.
  - intros Hf. destruct (IH Hf) as (c1 & c2 & -> & Hs & Hu).
    exists (a :: c1), c2. simpl. split; [reflexivity|]. split.
    + intros v. rewrite Hs. reflexivity.
    + rewrite Hu. reflexivity.
Qed.

Lemma distinct_keys_perm l l' :
  l ≡ₚ l' -> distinct_keys l -> distinct_keys l'.
Proof.
  induction 1 as [|a l l' Hp IH|a b l|l1 l2 l3 _ IH1 _ IH2]; simpl.
  - trivial.
  - intros [Ha Hl]. split; [rewrite <- Hp; exact Ha | apply IH, Hl].
  - intros (Hb & Ha & Hl). inversion Hb as [|? ? Hba Hb']; subst.
    split; [|split; [exact Hb' | exact Hl]].
    constructor; [rewrite Equals_sym; exact Hba | exact Ha].
  - intros Hd. apply IH2, IH1, Hd.
Qed.

(** In a list without equal keys, a node with the key sought is the node
    found. *)
Lemma find_node_unique k l n :
  distinct_keys l -> n ∈ l -> Equals k (m_key n) = true -> find_node k l = Some n.
Proof.
  induction l as [|a l IH]; simpl; intros Hd Hin Hk.
  - inversion Hin.
  - destruct Hd as [Ha Hd]. apply elem_of_cons in Hin as [<-|Hin].
    + rewrite Hk. reflexivity.
    + destruct (Equals k (m_key a)) eqn:E; [|apply IH; assumption].
      exfalso. rewrite Forall_forall in Ha. specialize (Ha n Hin).
      rewrite Equals_sym in E.
      rewrite (Equals_trans _ _ _ E Hk) in Ha. discriminate.
Qed.

Lemma find_node_perm k l l' :
  distinct_keys l -> l ≡ₚ l' -> find_node k l = find_node k l'.
Proof.
  intros Hd Hp. pose proof (distinct_keys_perm _ _ Hp Hd) as Hd'.
  destruct (find_node k l) as [n|] eqn:Hf.
  - apply find_node_Some in Hf as [Hin Hk]. symmetry.
    apply find_node_unique; [exact Hd' | rewrite <- Hp; exact Hin | exact Hk].
  - symmetry. apply find_node_None. rewrite <- Hp. apply find_node_None, Hf.
Qed.

(** A bucket inside the concatenation of the bucket array. *)
Lemma concat_bucket (buckets : list (chain Key Value)) (i : nat) (c : chain Key Value) :
  buckets !! i = Some c ->
  exists before after,
    concat buckets = before ++ c ++ after /\
    forall c', concat (<[i := c']> buckets) = before ++ c' ++ after.
Proof.
  revert i. induction buckets as [|b buckets IH]; intros [|i]; simpl; try discriminate.
  - intros [= ->]. exists [], (concat buckets). simpl. auto.
  - intros Hi. destruct (IH i Hi) as (before & after & Hc & Hu).
    exists (b ++ before), after. rewrite Hc. split.
    + rewrite <- app_assoc. reflexivity.
    + intros c'. rewrite Hu, <- app_assoc. reflexivity.
Qed.

Lemma elem_of_concat_bucket (buckets : list (chain Key Value)) n :
  n ∈ concat buckets <-> exists (i : nat) (c : chain Key Value), buckets !! i = Some c /\ n ∈ c.
Proof.
  rewrite list_elem_of_In, in_concat. split.
  - intros (c & Hc & Hn). apply list_elem_of_In, list_elem_of_lookup in Hc as [i Hi].
    exists i, c. split; [exact Hi | apply list_elem_of_In, Hn].
  - intros (i & c & Hi & Hn). exists c. split.
    + apply list_elem_of_In, list_elem_of_lookup. eauto.
    + apply list_elem_of_In, Hn.
Qed.

End Chains.

(** ** The representation invariant is kept *)

Section Invariants.

Context {Key Value : Type} `{KeyFuncsLaws Key} `{Behavior}.

Variable tbl : list JitPrimeInfo.

Implicit Types (k x : Key) (v : Value) (n : Node Key Value)
               (head : chain Key Value) (buckets : list (chain Key Value))
               (s : JitHashTable Key Value).

Lemma well_formed_empty : well_formed tbl (empty_table : JitHashTable Key Value).
Proof. repeat split. Qed.

Lemma read_bucket_Ok (table : option (list (chain Key Value))) (index : Z) head :
  read_bucket table index = Ok head ->
  exists buckets, table = Some buckets /\ buckets !! Z.to_nat index = Some head.
Proof.
  unfold read_bucket. destruct table as [buckets|]; [|discriminate].
  destruct (buckets !! Z.to_nat index) as [c|] eqn:E; [|discriminate].
  intros [= ->]. eauto.
Qed.

Lemma NextPrime_from_Ok (l : list JitPrimeInfo) (number : Z) (q : JitPrimeInfo) :
  NextPrime_from l number = Ok q -> q ∈ l /\ number <= prime q.
Proof.
  induction l as [|a l IH]; simpl; [discriminate|].
  destruct (Z.leb_spec number (prime a)).
  - intros [= <-]. split; [left | assumption].
  - intros Hq. destruct (IH Hq). split; [right|]; assumption.
Qed.

(** The two nested loops of [Reallocate] reach every node of a bucket
    array that has as many slots as the descriptor says. *)
Lemma nodes_from_drop buckets (m i : nat) :
  (i + m = length buckets)%nat ->
  nodes_from (Some buckets) (Z.of_nat i) m = Ok (concat (drop i buckets)).
Proof.
  revert i. induction m as [|m IH]; intros i Hlen; simpl.
  - rewrite drop_ge by lia. reflexivity.
  - unfold read_bucket. rewrite Nat2Z.id.
    destruct (buckets !! i) as [c|] eqn:Hi.
    2:{ apply lookup_ge_None in Hi. lia. }
    simpl. replace (Z.of_nat i + 1) with (Z.of_nat (S i)) by lia.
    rewrite IH by lia. simpl.
    rewrite (drop_S _ _ _ Hi). reflexivity.
Qed.

Lemma nodes_from_all buckets :
  nodes_from (Some buckets) 0 (length buckets) = Ok (concat buckets).
Proof. apply (nodes_from_drop buckets (length buckets) 0). reflexivity. Qed.

Lemma concat_replicate_nil (m : nat) :
  concat (replicate m ([] : chain Key Value)) = [].
Proof. induction m as [|m IH]; simpl; [reflexivity | exact IH]. Qed.

Lemma indexed_by_replicate (pi : JitPrimeInfo) (m : nat) :
  indexed_by pi (replicate m ([] : chain Key Value)).
Proof.
  intros i head n Hi Hn. apply lookup_replicate in Hi as [-> _]. inversion Hn.
Qed.

Lemma indexed_by_insert (pi : JitPrimeInfo) buckets (i : nat) head' :
  indexed_by pi buckets ->
  (forall n, n ∈ head' -> magicNumberRem pi (hash_of (m_key n)) = Ok (Z.of_nat i)) ->
  indexed_by pi (<[i := head']> buckets).
Proof.
  intros Hidx Hnew j head n Hj Hn.
  destruct (decide (i = j)) as [<-|Hne].
  - destruct (decide (i < length buckets)%nat) as [Hlt|Hge].
    + rewrite list_lookup_insert_eq in Hj by exact Hlt.
      injection Hj as <-. apply Hnew, Hn.
    + rewrite list_insert_ge in Hj by lia. exact (Hidx _ _ _ Hj Hn).
  - rewrite list_lookup_insert_ne in Hj by exact Hne. exact (Hidx _ _ _ Hj Hn).
Qed.

Lemma relink_Ok (q : JitPrimeInfo) buckets n buckets' :
  relink q buckets n = Ok buckets' ->
  exists (i : nat) head,
    magicNumberRem q (hash_of (m_key n)) = Ok (Z.of_nat i) /\
    buckets !! i = Some head /\ buckets' = <[i := n :: head]> buckets.
Proof.
  unfold relink. intros Hr.
  apply bind_Ok in Hr as (index & Hidx & Hr).
  apply bind_Ok in Hr as (head & Hread & Hr). injection Hr as <-.
  pose proof (magicNumberRem_nonneg _ _ _ Hidx) as Hnn.
  apply read_bucket_Ok in Hread as (b & [= <-] & Hlook).
  exists (Z.to_nat index), head. rewrite Z2Nat.id by exact Hnn. auto.
Qed.

Lemma relink_all_Ok (q : JitPrimeInfo) (nodes : list (Node Key Value)) :
  forall buckets buckets',
    relink_all q buckets nodes = Ok buckets' ->
    indexed_by q buckets ->
    length buckets' = length buckets /\
    indexed_by q buckets' /\
    concat buckets' ≡ₚ nodes ++ concat buckets.
Proof.
  induction nodes as [|n nodes IH]; simpl; intros buckets buckets' Hr Hidx.
  - injection Hr as <-. auto.
  - apply bind_Ok in Hr as (mid & Hone & Hrest).
    apply relink_Ok in Hone as (i & head & Hrem & Hlook & ->).
    destruct (concat_bucket buckets i head Hlook) as (before & after & Hc & Hu).
    assert (Hidx' : indexed_by q (<[i := n :: head]> buckets)).
    { apply indexed_by_insert; [exact Hidx|].
      intros m Hm. apply elem_of_cons in Hm as [->|Hm]; [exact Hrem|].
      exact (Hidx _ _ _ Hlook Hm). }
    destruct (IH _ _ Hrest Hidx') as (Hlen & Hidx'' & Hperm).
    rewrite length_insert in Hlen. split; [exact Hlen|]. split; [exact Hidx''|].
    rewrite Hperm, Hu, Hc. simpl.
    rewrite (Permutation_middle nodes). apply Permutation_app_head.
    symmetry. rewrite <- Permutation_middle. reflexivity.
Qed.

(** [Reallocate] keeps the invariant, the nodes and the count, and
    installs the descriptor [NextPrime] chose. *)
Lemma Reallocate_Ok s (newTableSize : Z) s' :
  well_formed tbl s -> Reallocate tbl s newTableSize = Ok s' ->
  well_formed tbl s' /\ entries s' ≡ₚ entries s /\
  m_tableCount s' = m_tableCount s /\
  NextPrime tbl newTableSize = Ok (m_tableSizeInfo s') /\
  m_tableMax s' = density_threshold (prime (m_tableSizeInfo s')) /\
  is_Some (m_table s').
Proof.
  intros Hwf. unfold Reallocate. intros Hr.
  apply bind_Ok in Hr as (_ & _ & Hr).
  apply bind_Ok in Hr as (q & Hq & Hr).
  apply bind_Ok in Hr as (nodes & Hnodes & Hr).
  apply bind_Ok in Hr as (newTable & Hrel & Hr). injection Hr as <-.
  assert (Hold : nodes = entries s /\ distinct_keys (entries s) /\
                 m_tableCount s = to_unsigned (Z.of_nat (length (entries s)))).
  { unfold well_formed in Hwf. unfold entries.
    destruct (m_table s) as [buckets|] eqn:Ht.
    - destruct Hwf as (_ & Hlen & _ & Hcnt & _ & Hd).
      rewrite <- Hlen, nodes_from_all in Hnodes. injection Hnodes as <-. auto.
    - destruct Hwf as (Hsi & Hc0 & _). rewrite Hsi in Hnodes.
      simpl in Hnodes. injection Hnodes as <-. rewrite Hc0. repeat split. }
  destruct Hold as (-> & Hd & Hcnt).
  apply relink_all_Ok in Hrel as (Hlen & Hidx & Hperm);
    [|apply indexed_by_replicate].
  rewrite length_replicate in Hlen.
  rewrite concat_replicate_nil, app_nil_r in Hperm.
  apply NextPrime_from_Ok in Hq as Hq'. destruct Hq' as [Hin _].
  split; [|split; [|split; [|split; [|split]]]]; simpl; eauto.
  unfold well_formed; simpl. split; [exact Hin|]. split; [exact Hlen|].
  split; [reflexivity|]. split; [|split; [exact Hidx|]].
  - rewrite Hperm. exact Hcnt.
  - apply (distinct_keys_perm (entries s)); [symmetry; exact Hperm | exact Hd].
Qed.

Lemma Grow_Ok s s' :
  well_formed tbl s -> Grow tbl s = Ok s' ->
  well_formed tbl s' /\ entries s' ≡ₚ entries s /\
  m_tableCount s' = m_tableCount s /\
  m_tableCount s <= prime (m_tableSizeInfo s') /\
  m_tableSizeInfo s' ∈ tbl /\
  is_Some (m_table s').
Proof.
  intros Hwf. unfold Grow.
  set (newSize := if grow_request (m_tableCount s) <? s_minimum_allocation
                  then s_minimum_allocation else grow_request (m_tableCount s)).
  destruct (Z.ltb_spec newSize (m_tableCount s)) as [|Hge]; [discriminate|].
  intros Hr. apply (Reallocate_Ok _ _ _ Hwf) in Hr as (Hwf' & Hp & Hc & Hq & _ & Hs).
  apply NextPrime_from_Ok in Hq as [Hin Hle].
  repeat split; auto. lia.
Qed.

Lemma CheckGrowth_Ok s s' :
  well_formed tbl s -> CheckGrowth tbl s = Ok s' ->
  well_formed tbl s' /\ entries s' ≡ₚ entries s /\
  m_tableCount s' = m_tableCount s.
Proof.
  intros Hwf. unfold CheckGrowth.
  destruct (m_tableCount s =? m_tableMax s).
  - intros Hg. apply (Grow_Ok _ _ Hwf) in Hg as (? & ? & ? & _). auto.
  - intros [= <-]. auto.
Qed.

Lemma well_formed_distinct s : well_formed tbl s -> distinct_keys (entries s).
Proof.
  unfold well_formed, entries. destruct (m_table s); [|simpl; trivial].
  intros (_ & _ & _ & _ & _ & Hd). exact Hd.
Qed.

Lemma well_formed_count s :
  well_formed tbl s -> m_tableCount s = to_unsigned (Z.of_nat (length (entries s))).
Proof.
  unfold well_formed, entries. destruct (m_table s).
  - intros (_ & _ & _ & Hc & _). exact Hc.
  - intros (_ & -> & _). reflexivity.
Qed.

(** The chain of the bucket a key is indexed to holds the node of that key,
    if the table holds one at all. *)
Lemma bucket_find s buckets (i : nat) head k :
  well_formed tbl s -> m_table s = Some buckets -> buckets !! i = Some head ->
  magicNumberRem (m_tableSizeInfo s) (hash_of k) = Ok (Z.of_nat i) ->
  find_node k head = find_node k (entries s).
Proof.
  intros Hwf Ht Hi Hrem. pose proof (well_formed_distinct s Hwf) as Hd.
  unfold well_formed in Hwf. unfold entries in *. rewrite Ht in *.
  destruct Hwf as (_ & _ & _ & _ & Hidx & _).
  destruct (find_node k head) as [n|] eqn:Hf.
  - apply find_node_Some in Hf as [Hin Hk]. symmetry.
    apply find_node_unique; [exact Hd | | exact Hk].
    apply elem_of_concat_bucket. eauto.
  - symmetry. apply find_node_None, Forall_forall. intros m Hm.
    destruct (Equals k (m_key m)) eqn:Hk; [exfalso | reflexivity].
    apply elem_of_concat_bucket in Hm as (j & c & Hj & Hmc).
    pose proof (Hidx _ _ _ Hj Hmc) as Hremj.
    unfold hash_of in Hrem, Hremj. rewrite (Equals_hash _ _ Hk), Hremj in Hrem.
    injection Hrem as Hji. apply Nat2Z.inj in Hji. subst j.
    assert (c = head) as -> by congruence.
    apply find_node_None in Hf. rewrite Forall_forall in Hf.
    rewrite (Hf m Hmc) in Hk. discriminate.
Qed.

(** The three insertion paths start alike. *)
Lemma locate_Ok s k s1 (index : Z) head :
  well_formed tbl s -> locate tbl s k = Ok (s1, index, head) ->
  CheckGrowth tbl s = Ok s1 /\
  well_formed tbl s1 /\ entries s1 ≡ₚ entries s /\
  m_tableCount s1 = m_tableCount s /\
  0 <= index /\
  magicNumberRem (m_tableSizeInfo s1) (hash_of k) = Ok index /\
  (exists buckets, m_table s1 = Some buckets /\ buckets !! Z.to_nat index = Some head) /\
  find_node k head = find_node k (entries s1).
Proof.
  intros Hwf. unfold locate. intros Hl.
  apply bind_Ok in Hl as (s1' & Hg & Hl).
  apply bind_Ok in Hl as (_ & _ & Hl).
  apply bind_Ok in Hl as (index' & Hidx & Hl).
  apply bind_Ok in Hl as (head' & Hread & Hl).
  injection Hl as -> -> ->.
  destruct (CheckGrowth_Ok _ _ Hwf Hg) as (Hwf1 & Hp & Hc).
  pose proof (magicNumberRem_nonneg _ _ _ Hidx) as Hnn.
  apply read_bucket_Ok in Hread as (buckets & Ht & Hlook).
  unfold GetIndexForKey in Hidx.
  repeat split; eauto.
  apply (bucket_find s1 buckets (Z.to_nat index)); auto.
  rewrite Z2Nat.id by exact Hnn. exact Hidx.
Qed.

(** Replacing the chain of one bucket. *)
Lemma well_formed_write s buckets (index : Z) head head' (count : Z) :
  well_formed tbl s -> m_table s = Some buckets -> 0 <= index ->
  buckets !! Z.to_nat index = Some head ->
  exists before after,
    entries s = before ++ head ++ after /\
    entries (set_count (write_bucket s index head') count) = before ++ head' ++ after /\
    ((forall n, n ∈ head' ->
        magicNumberRem (m_tableSizeInfo s) (hash_of (m_key n)) = Ok index) ->
     distinct_keys (before ++ head' ++ after) ->
     count = to_unsigned (Z.of_nat (length (before ++ head' ++ after))) ->
     well_formed tbl (set_count (write_bucket s index head') count)).
Proof.
  intros Hwf Ht Hnn Hlook.
  destruct (concat_bucket buckets _ head Hlook) as (before & after & Hc & Hu).
  exists before, after. unfold entries, well_formed in *. simpl. rewrite Ht in *. simpl.
  split; [exact Hc|]. split; [apply Hu|].
  intros Hnew Hd Hcount. destruct Hwf as (Hin & Hlen & Hmax & _ & Hidx & _).
  rewrite length_insert, Hu.
  repeat split; auto.
  apply indexed_by_insert; [exact Hidx|].
  intros n Hn. rewrite Z2Nat.id by exact Hnn. apply Hnew, Hn.
Qed.

Lemma to_unsigned_succ (z : Z) : to_unsigned (to_unsigned z + 1) = to_unsigned (z + 1).
Proof. unfold to_unsigned, UINT_RANGE. apply Zplus_mod_idemp_l. Qed.

Lemma to_unsigned_pred (z : Z) : to_unsigned (to_unsigned (z + 1) - 1) = to_unsigned z.
Proof.
  unfold to_unsigned, UINT_RANGE. rewrite Zminus_mod_idemp_l. f_equal. lia.
Qed.

(** A node for a key the table does not hold, in front of its chain. *)
Lemma link_front_Ok s buckets (index : Z) head k v :
  well_formed tbl s -> m_table s = Some buckets -> 0 <= index ->
  buckets !! Z.to_nat index = Some head ->
  magicNumberRem (m_tableSizeInfo s) (hash_of k) = Ok index ->
  find_node k (entries s) = None ->
  well_formed tbl (link_front s index head k v) /\
  entries (link_front s index head k v) ≡ₚ mkNode k v :: entries s.
Proof.
  intros Hwf Ht Hnn Hlook Hrem Hnone. unfold link_front.
  destruct (well_formed_write s buckets index head (mkNode k v :: head)
              (to_unsigned (m_tableCount s + 1)) Hwf Ht Hnn Hlook)
    as (before & after & He & He' & Hwf').
  assert (Hperm : before ++ (mkNode k v :: head) ++ after ≡ₚ mkNode k v :: entries s).
  { rewrite He. simpl. symmetry. apply Permutation_middle. }
  split; [|rewrite He'; exact Hperm].
  apply Hwf'.
  - intros n Hn. apply elem_of_cons in Hn as [->|Hn]; [exact Hrem|].
    unfold well_formed in Hwf. rewrite Ht in Hwf.
    destruct Hwf as (_ & _ & _ & _ & Hidx & _).
    rewrite <- (Z2Nat.id index Hnn). exact (Hidx _ _ _ Hlook Hn).
  - apply (distinct_keys_perm (mkNode k v :: entries s)); [symmetry; exact Hperm|].
    simpl. split; [apply find_node_None, Hnone | apply well_formed_distinct, Hwf].
  - rewrite Hperm, (well_formed_count s Hwf), to_unsigned_succ. simpl length.
    f_equal. lia.
Qed.

(** A new value in the node of a key the table holds. *)
Lemma store_val_Ok s buckets (index : Z) head k v n :
  well_formed tbl s -> m_table s = Some buckets -> 0 <= index ->
  buckets !! Z.to_nat index = Some head ->
  find_node k head = Some n ->
  well_formed tbl (write_bucket s index (store_val k v head)) /\
  exists others,
    entries s ≡ₚ n :: others /\
    entries (write_bucket s index (store_val k v head)) ≡ₚ mkNode (m_key n) v :: others.
Proof.
  intros Hwf Ht Hnn Hlook Hfind.
  destruct (find_node_split k head n Hfind) as (c1 & c2 & Hhead & Hstore & _).
  destruct (well_formed_write s buckets index head (store_val k v head)
              (m_tableCount s) Hwf Ht Hnn Hlook)
    as (before & after & He & He' & Hwf').
  change (set_count (write_bucket s index (store_val k v head)) (m_tableCount s))
    with (write_bucket s index (store_val k v head)) in *.
  rewrite Hstore in *. rewrite Hhead in He.
  assert (Hp : entries s ≡ₚ n :: (before ++ c1 ++ c2 ++ after)).
  { rewrite He, <- !app_assoc. simpl.
    rewrite !(app_assoc before c1). symmetry. apply Permutation_middle. }
  assert (Hp' : before ++ (c1 ++ mkNode (m_key n) v :: c2) ++ after
                ≡ₚ mkNode (m_key n) v :: (before ++ c1 ++ c2 ++ after)).
  { rewrite <- !app_assoc. simpl.
    rewrite !(app_assoc before c1). symmetry. apply Permutation_middle. }
  split; [|exists (before ++ c1 ++ c2 ++ after); rewrite He'; auto].
  pose proof (well_formed_distinct s Hwf) as Hd.
  apply Hwf'.
  - unfold well_formed in Hwf. rewrite Ht in Hwf.
    destruct Hwf as (_ & _ & _ & _ & Hidx & _).
    assert (Hold : forall m, m ∈ head ->
              magicNumberRem (m_tableSizeInfo s) (hash_of (m_key m)) = Ok index).
    { intros m Hm. rewrite <- (Z2Nat.id index Hnn). exact (Hidx _ _ _ Hlook Hm). }
    intros m Hm. apply elem_of_app in Hm as [Hm|Hm].
    + apply Hold. rewrite Hhead. apply elem_of_app. left. exact Hm.
    + apply elem_of_cons in Hm as [->|Hm].
      * simpl. apply Hold. rewrite Hhead. apply elem_of_app. right. left.
      * apply Hold. rewrite Hhead. apply elem_of_app. right. right. exact Hm.
  - apply (distinct_keys_perm _ _ (symmetry Hp')).
    apply (distinct_keys_perm _ _ Hp) in Hd. exact Hd.
  - rewrite Hp', (well_formed_count s Hwf), Hp. reflexivity.
Qed.

(** The node of a key the table holds, taken out of its chain. *)
Lemma unlink_Ok s buckets (index : Z) head k n :
  well_formed tbl s -> m_table s = Some buckets -> 0 <= index ->
  buckets !! Z.to_nat index = Some head ->
  find_node k head = Some n ->
  let s' := set_count (write_bucket s index (unlink k head))
                      (to_unsigned (m_tableCount s - 1)) in
  well_formed tbl s' /\ entries s ≡ₚ n :: entries s'.
Proof.
  intros Hwf Ht Hnn Hlook Hfind s'.
  destruct (find_node_split k head n Hfind) as (c1 & c2 & Hhead & _ & Hunlink).
  destruct (well_formed_write s buckets index head (unlink k head)
              (to_unsigned (m_tableCount s - 1)) Hwf Ht Hnn Hlook)
    as (before & after & He & He' & Hwf').
  fold s' in He', Hwf'. rewrite Hunlink in *. rewrite Hhead in He.
  assert (Hp : entries s ≡ₚ n :: entries s').
  { rewrite He, He', <- !app_assoc. simpl.
    rewrite !(app_assoc before c1). symmetry. apply Permutation_middle. }
  split; [|exact Hp].
  pose proof (well_formed_distinct s Hwf) as Hd.
  apply (distinct_keys_perm _ _ Hp) in Hd as [_ Hd].
  apply Hwf'.
  - unfold well_formed in Hwf. rewrite Ht in Hwf.
    destruct Hwf as (_ & _ & _ & _ & Hidx & _).
    intros m Hm. rewrite <- (Z2Nat.id index Hnn). apply (Hidx _ _ _ Hlook).
    rewrite Hhead. apply elem_of_app in Hm as [Hm|Hm]; apply elem_of_app;
      [left | right; right]; exact Hm.
  - rewrite <- He'. exact Hd.
  - rewrite <- He', (well_formed_count s Hwf), Hp. simpl length.
    rewrite Nat2Z.inj_succ, <- Z.add_1_r. apply to_unsigned_pred.
Qed.

(** ** The table refines the contents the spec speaks of *)

Implicit Types (c : spec_contents Key Value).

Lemma find_node_perm_cons x (l others : list (Node Key Value)) n :
  distinct_keys l -> l ≡ₚ n :: others ->
  find_node x l = if Equals x (m_key n) then Some n else find_node x others.
Proof. intros Hd Hp. rewrite (find_node_perm x _ _ Hd Hp). reflexivity. Qed.

Lemma refines_perm s s1 c :
  distinct_keys (entries s) -> entries s1 ≡ₚ entries s ->
  refines s c -> refines s1 c.
Proof.
  intros Hd Hp [Hv Hn]. split.
  - intros x. rewrite <- Hv. f_equal. symmetry. apply find_node_perm; [exact Hd|].
    symmetry. exact Hp.
  - rewrite Hp. exact Hn.
Qed.

Lemma refines_empty : refines (empty_table : JitHashTable Key Value) spec_empty.
Proof. split; reflexivity. Qed.

(** Insertion of a key the table does not hold. *)
Lemma link_front_refines s buckets (index : Z) head k v c (overwrite : bool) :
  well_formed tbl s -> refines s c ->
  m_table s = Some buckets -> 0 <= index ->
  buckets !! Z.to_nat index = Some head ->
  magicNumberRem (m_tableSizeInfo s) (hash_of k) = Ok index ->
  find_node k (entries s) = None ->
  well_formed tbl (link_front s index head k v) /\
  refines (link_front s index head k v) (spec_insert c k v overwrite).
Proof.
  intros Hwf [Hv Hn] Ht Hnn Hlook Hrem Hnone.
  destruct (link_front_Ok s buckets index head k v Hwf Ht Hnn Hlook Hrem Hnone)
    as [Hwf' Hp].
  split; [exact Hwf'|]. unfold spec_insert.
  rewrite <- (Hv k), Hnone. simpl. split; simpl.
  - intros x. unfold spec_assign; simpl.
    rewrite (find_node_perm_cons x _ _ _ (well_formed_distinct _ Hwf') Hp). simpl.
    rewrite (Equals_sym x k). destruct (Equals k x); [reflexivity | apply Hv].
  - rewrite Hp. simpl length. lia.
Qed.

(** A new value for a key the table holds. *)
Lemma store_val_refines s buckets (index : Z) head k v n c :
  well_formed tbl s -> refines s c ->
  m_table s = Some buckets -> 0 <= index ->
  buckets !! Z.to_nat index = Some head ->
  find_node k head = Some n -> find_node k (entries s) = Some n ->
  well_formed tbl (write_bucket s index (store_val k v head)) /\
  refines (write_bucket s index (store_val k v head)) (spec_insert c k v true).
Proof.
  intros Hwf [Hv Hn] Ht Hnn Hlook Hfind Hfind'.
  destruct (store_val_Ok s buckets index head k v n Hwf Ht Hnn Hlook Hfind)
    as (Hwf' & others & Hp & Hp').
  split; [exact Hwf'|]. unfold spec_insert.
  rewrite <- (Hv k), Hfind'. simpl.
  apply find_node_Some in Hfind as [_ Hk].
  split; simpl.
  - intros x. unfold spec_assign; simpl.
    rewrite (find_node_perm_cons x _ _ _ (well_formed_distinct _ Hwf') Hp'). simpl.
    rewrite <- (Equals_congr_r _ _ x Hk), (Equals_sym x k).
    destruct (Equals k x) eqn:E; [reflexivity|].
    rewrite <- Hv, (find_node_perm_cons x _ _ _ (well_formed_distinct _ Hwf) Hp).
    rewrite <- (Equals_congr_r _ _ x Hk), (Equals_sym x k), E. reflexivity.
  - rewrite Hp'. rewrite Hp in Hn. exact Hn.
Qed.

(** Removal of a key the table holds. *)
Lemma unlink_refines s buckets (index : Z) head k n c :
  well_formed tbl s -> refines s c ->
  m_table s = Some buckets -> 0 <= index ->
  buckets !! Z.to_nat index = Some head ->
  find_node k head = Some n -> find_node k (entries s) = Some n ->
  let s' := set_count (write_bucket s index (unlink k head))
                      (to_unsigned (m_tableCount s - 1)) in
  well_formed tbl s' /\ refines s' (spec_remove c k).
Proof.
  intros Hwf [Hv Hn] Ht Hnn Hlook Hfind Hfind' s'.
  destruct (unlink_Ok s buckets index head k n Hwf Ht Hnn Hlook Hfind) as [Hwf' Hp].
  fold s' in Hwf', Hp. split; [exact Hwf'|]. unfold spec_remove.
  rewrite <- (Hv k), Hfind'. simpl.
  apply find_node_Some in Hfind as [_ Hk].
  pose proof (well_formed_distinct _ Hwf) as Hd.
  apply (distinct_keys_perm _ _ Hp) in Hd as Hd'. destruct Hd' as [Hfresh _].
  split; simpl.
  - intros x. unfold spec_assign; simpl.
    destruct (Equals k x) eqn:E.
    + replace (find_node x (entries s')) with (@None (Node Key Value)); [reflexivity|].
      symmetry. apply find_node_None. rewrite Forall_forall in Hfresh |- *.
      intros m Hm. specialize (Hfresh m Hm).
      rewrite Equals_sym in E.
      rewrite (Equals_congr_l x k (m_key m) E), (Equals_congr_l k (m_key n) (m_key m) Hk).
      exact Hfresh.
    + rewrite <- Hv, (find_node_perm_cons x _ _ _ Hd Hp).
      rewrite <- (Equals_congr_r _ _ x Hk), (Equals_sym x k), E. reflexivity.
  - rewrite Hp in Hn. simpl length in Hn. lia.
Qed.

Lemma locate_refines s k s1 (index : Z) head c :
  well_formed tbl s -> refines s c -> locate tbl s k = Ok (s1, index, head) ->
  refines s1 c.
Proof.
  intros Hwf Href Hl.
  destruct (locate_Ok s k s1 index head Hwf Hl) as (_ & _ & Hp & _).
  apply (refines_perm s); [apply well_formed_distinct, Hwf | exact Hp | exact Href].
Qed.

(** The two insertion paths that keep the value of a key that is in. *)
Lemma insert_keep_refines s k v s1 (index : Z) head c :
  well_formed tbl s -> refines s c -> locate tbl s k = Ok (s1, index, head) ->
  let s' := match find_node k head with
            | Some _ => s1
            | None => link_front s1 index head k v
            end in
  well_formed tbl s' /\ refines s' (spec_insert c k v false).
Proof.
  intros Hwf Href Hl s'. pose proof (locate_refines _ _ _ _ _ _ Hwf Href Hl) as Href1.
  destruct (locate_Ok s k s1 index head Hwf Hl)
    as (_ & Hwf1 & _ & _ & Hnn & Hrem & (buckets & Ht & Hlook) & Hfind).
  subst s'. destruct (find_node k head) as [n|] eqn:E.
  - split; [exact Hwf1|]. unfold spec_insert.
    destruct Href1 as [Hv Hn]. rewrite <- (Hv k), <- Hfind. simpl. split; assumption.
  - apply (link_front_refines s1 buckets); auto.
Qed.

(** Every call that returns keeps the invariant and the refinement. *)
Lemma step_refines s c (o : op Key Value) s' :
  well_formed tbl s -> refines s c -> step tbl s o = Ok s' ->
  well_formed tbl s' /\ refines s' (spec_step c o).
Proof.
  intros Hwf Href. destruct o as [k v kind|k d|k v|k| |n|k]; simpl; intros Hs.
  - apply bind_Ok in Hs as ([b r] & Hset & [= <-]). unfold Set_ in Hset.
    apply bind_Ok in Hset as ([[s1 index] head] & Hl & Hset).
    pose proof (locate_refines _ _ _ _ _ _ Hwf Href Hl) as Href1.
    destruct (locate_Ok s k s1 index head Hwf Hl)
      as (_ & Hwf1 & _ & _ & Hnn & Hrem & (buckets & Ht & Hlook) & Hfind).
    destruct (find_node k head) as [m|] eqn:E.
    + apply bind_Ok in Hset as (_ & _ & [= <- <-]). simpl.
      apply (store_val_refines s1 buckets index head k v m); auto.
    + injection Hset as <- <-. simpl.
      apply (link_front_refines s1 buckets); auto.
  - apply bind_Ok in Hs as ([b r] & Hadd & [= <-]). unfold LookupPointerOrAdd in Hadd.
    apply bind_Ok in Hadd as ([[s1 index] head] & Hl & Hadd).
    pose proof (insert_keep_refines s k d s1 index head c Hwf Href Hl) as Hkeep.
    destruct (find_node k head); injection Hadd as <- <-; exact Hkeep.
  - apply bind_Ok in Hs as ([b r] & Hadd & [= <-]). unfold Emplace in Hadd.
    apply bind_Ok in Hadd as ([[s1 index] head] & Hl & Hadd).
    pose proof (insert_keep_refines s k v s1 index head c Hwf Href Hl) as Hkeep.
    destruct (find_node k head); injection Hadd as <- <-; exact Hkeep.
  - apply bind_Ok in Hs as ([b r] & Hrm & [= <-]). unfold Remove in Hrm.
    apply bind_Ok in Hrm as (index & Hidx & Hrm).
    apply bind_Ok in Hrm as (head & Hread & Hrm).
    pose proof (magicNumberRem_nonneg _ _ _ Hidx) as Hnn.
    apply read_bucket_Ok in Hread as (buckets & Ht & Hlook).
    assert (Hfind : find_node k head = find_node k (entries s)).
    { apply (bucket_find s buckets (Z.to_nat index)); auto.
      rewrite Z2Nat.id by exact Hnn. exact Hidx. }
    destruct (find_node k head) as [m|] eqn:E.
    + injection Hrm as <- <-. simpl.
      apply (unlink_refines s buckets index head k m); auto.
    + injection Hrm as <- <-. simpl. split; [exact Hwf|].
      unfold spec_remove. destruct Href as [Hv Hn].
      rewrite <- (Hv k), <- Hfind. simpl. split; assumption.
  - injection Hs as <-. split; [apply well_formed_empty|].
    split; simpl; [reflexivity | lia].
  - destruct (Reallocate_Ok s _ s' Hwf Hs) as (Hwf' & Hp & _).
    split; [exact Hwf'|].
    apply (refines_perm s); [apply well_formed_distinct, Hwf | exact Hp | exact Href].
  - apply bind_Ok in Hs as (_ & _ & [= <-]). auto.
Qed.

Lemma run_refines (ops : list (op Key Value)) :
  forall s c s',
    well_formed tbl s -> refines s c -> run tbl s ops = Ok s' ->
    well_formed tbl s' /\ refines s' (fold_left spec_step ops c).
Proof.
  induction ops as [|o ops IH]; simpl; intros s c s' Hwf Href Hr.
  - injection Hr as <-. auto.
  - apply bind_Ok in Hr as (s1 & Hstep & Hr).
    destruct (step_refines s c o s1 Hwf Href Hstep) as [Hwf1 Href1].
    exact (IH _ _ _ Hwf1 Href1 Hr).
Qed.

Lemma run_from_empty (ops : list (op Key Value)) s :
  run tbl empty_table ops = Ok s ->
  well_formed tbl s /\ refines s (spec_run ops).
Proof.
  intros Hr. exact (run_refines ops _ _ _ well_formed_empty refines_empty Hr).
Qed.

Lemma reachable_well_formed s : reachable tbl s -> well_formed tbl s.
Proof. intros [ops Hr]. apply (run_from_empty ops s Hr). Qed.

(** ** Lookup *)

Lemma FindNode_unfold s k :
  FindNode s k =
  if prime (m_tableSizeInfo s) =? 0 then Ok None
  else
    let! index := GetIndexForKey s k in
    let! pN := read_bucket (m_table s) index in
    Ok (find_node k pN).
Proof.
  unfold FindNode. destruct (prime (m_tableSizeInfo s) =? 0); [reflexivity|].
  destruct (GetIndexForKey s k) as [index|]; simpl; [|reflexivity].
  destruct (read_bucket (m_table s) index) as [[|n pN]|]; reflexivity.
Qed.

(** What [FindNode] returns is the node of the key among all the nodes. *)
Lemma FindNode_Ok s k (r : option (Node Key Value)) :
  well_formed tbl s -> FindNode s k = Ok r -> r = find_node k (entries s).
Proof.
  intros Hwf. rewrite FindNode_unfold.
  destruct (Z.eqb_spec (prime (m_tableSizeInfo s)) 0) as [Hz|Hnz].
  - intros [= <-]. unfold well_formed, entries in *.
    destruct (m_table s) as [buckets|]; [|reflexivity].
    destruct Hwf as (_ & Hlen & _). rewrite Hz in Hlen.
    destruct buckets; [reflexivity | discriminate].
  - intros Hf. apply bind_Ok in Hf as (index & Hidx & Hf).
    apply bind_Ok in Hf as (head & Hread & [= <-]).
    pose proof (magicNumberRem_nonneg _ _ _ Hidx) as Hnn.
    apply read_bucket_Ok in Hread as (buckets & Ht & Hlook).
    apply (bucket_find s buckets (Z.to_nat index)); auto.
    rewrite Z2Nat.id by exact Hnn. exact Hidx.
Qed.

(** A key the table holds is found: its bucket was computed when its node
    was linked, with the descriptor still in place. *)
Lemma FindNode_present s k n :
  well_formed tbl s -> find_node k (entries s) = Some n ->
  FindNode s k = Ok (Some n).
Proof.
  intros Hwf Hfind. pose proof Hfind as Hfind'.
  apply find_node_Some in Hfind' as [Hin Hk].
  pose proof Hwf as Hwf0.
  unfold well_formed, entries in Hwf, Hin.
  destruct (m_table s) as [buckets|] eqn:Ht; [|inversion Hin].
  destruct Hwf as (_ & _ & _ & _ & Hidx & _).
  apply elem_of_concat_bucket in Hin as (i & head & Hlook & Hn).
  pose proof (Hidx _ _ _ Hlook Hn) as Hrem.
  assert (Hremk : magicNumberRem (m_tableSizeInfo s) (hash_of k) = Ok (Z.of_nat i)).
  { unfold hash_of in *. rewrite (Equals_hash _ _ Hk). exact Hrem. }
  rewrite FindNode_unfold.
  destruct (magicNumberRem_Ok _ _ _ Hremk) as [Hnz _].
  destruct (Z.eqb_spec (prime (m_tableSizeInfo s)) 0) as [|_]; [contradiction|].
  unfold GetIndexForKey. rewrite Hremk. simpl.
  unfold read_bucket. rewrite Ht, Nat2Z.id, Hlook. simpl.
  rewrite (bucket_find s buckets i head k Hwf0 Ht Hlook Hremk), Hfind. reflexivity.
Qed.

(** With exact magic numbers the bucket of any key can be computed. *)
Lemma GetIndexForKey_exact s k buckets :
  forallb magic_okb tbl = true ->
  well_formed tbl s -> m_table s = Some buckets ->
  exists (i : nat) head,
    GetIndexForKey s k = Ok (Z.of_nat i) /\
    buckets !! i = Some head /\
    prime (m_tableSizeInfo s) <> 0.
Proof.
  intros Hmagic Hwf Ht. unfold well_formed in Hwf. rewrite Ht in Hwf.
  destruct Hwf as (Hin & Hlen & _).
  rewrite forallb_forall in Hmagic.
  assert (Hok : magic_okb (m_tableSizeInfo s) = true)
    by (apply Hmagic, list_elem_of_In, Hin).
  pose proof (magic_okb_spec _ Hok) as (Hp & _).
  pose proof (Z.mod_pos_bound (hash_of k) (prime (m_tableSizeInfo s)) ltac:(lia)) as Hm.
  assert (Hlt : (Z.to_nat (hash_of k mod prime (m_tableSizeInfo s)) < length buckets)%nat)
    by (rewrite Hlen; lia).
  apply lookup_lt_is_Some_2 in Hlt as [head Hlook].
  exists (Z.to_nat (hash_of k mod prime (m_tableSizeInfo s))), head.
  unfold GetIndexForKey. rewrite Z2Nat.id by lia.
  split; [|split; [exact Hlook | lia]].
  apply magicNumberRem_exact; [exact Hok | apply to_unsigned_range].
Qed.

Lemma FindNode_total s k :
  forallb magic_okb tbl = true -> well_formed tbl s ->
  FindNode s k = Ok (find_node k (entries s)).
Proof.
  intros Hmagic Hwf.
  assert (Hex : exists r, FindNode s k = Ok r).
  { rewrite FindNode_unfold. destruct (prime (m_tableSizeInfo s) =? 0) eqn:Hz; [eauto|].
    destruct (m_table s) as [buckets|] eqn:Ht.
    - destruct (GetIndexForKey_exact s k buckets Hmagic Hwf Ht) as (i & head & -> & Hl & _).
      simpl. unfold read_bucket. rewrite Nat2Z.id, Hl. simpl. eauto.
    - unfold well_formed in Hwf. rewrite Ht in Hwf. destruct Hwf as (Hsi & _).
      rewrite Hsi in Hz. discriminate. }
  destruct Hex as [r Hr]. rewrite Hr. f_equal. exact (FindNode_Ok s k r Hwf Hr).
Qed.

Lemma Lookup_present s k n (pVal : option Value) :
  well_formed tbl s -> find_node k (entries s) = Some n ->
  Lookup s k pVal =
  Ok (true, match pVal with Some _ => Some (m_val n) | None => None end).
Proof.
  intros Hwf Hfind. unfold Lookup. rewrite (FindNode_present s k n Hwf Hfind).
  reflexivity.
Qed.

Lemma Lookup_true s k (pVal r : option Value) :
  well_formed tbl s -> Lookup s k pVal = Ok (true, r) ->
  exists n, find_node k (entries s) = Some n /\
            r = match pVal with Some _ => Some (m_val n) | None => None end.
Proof.
  intros Hwf. unfold Lookup. intros Hl.
  apply bind_Ok in Hl as (pN & Hf & Hl).
  apply (FindNode_Ok s k pN Hwf) in Hf. subst pN.
  destruct (find_node k (entries s)) as [n|]; [|discriminate].
  injection Hl as <-. eauto.
Qed.

(** ** Lookup, rehash and the count *)

(** C1. After any sequence of calls that all return, a key that has been
    inserted (by [Set], [LookupPointerOrAdd] or [Emplace]) and not removed
    since -- the spec's contents give it the value [v], the one last set --
    is found by [Lookup]: the call returns [true] and stores exactly [v] in
    the caller's location (and returns [true], storing nothing, when
    [pVal] is [nullptr]). *)
Theorem Lookup_returns_last_set (ops : list (op Key Value)) s k v (old : Value) :
  run tbl empty_table ops = Ok s ->
  spec_value (spec_run ops) k = Some v ->
  Lookup s k (Some old) = Ok (true, Some v) /\
  Lookup s k None = Ok (true, None).
Proof.
  intros Hrun Hspec. destruct (run_from_empty ops s Hrun) as [Hwf [Hv _]].
  rewrite <- (Hv k) in Hspec.
  destruct (find_node k (entries s)) as [n|] eqn:Hfind; [|discriminate].
  injection Hspec as <-.
  rewrite !(Lookup_present s k n _ Hwf Hfind). auto.
Qed.

(** C2. A rehash, whether [Reallocate] is called directly or through
    [Grow], loses and duplicates nothing: the nodes afterwards are a
    permutation of the nodes before, [GetCount] is the same, and every key
    [Lookup] found before is found afterwards with the same value. *)
Theorem rehash_preserves_entries s s' (newTableSize : Z) :
  reachable tbl s ->
  Reallocate tbl s newTableSize = Ok s' \/ Grow tbl s = Ok s' ->
  entries s' ≡ₚ entries s /\
  GetCount s' = GetCount s /\
  forall k (pVal r : option Value),
    Lookup s k pVal = Ok (true, r) -> Lookup s' k pVal = Ok (true, r).
Proof.
  intros Hreach Hre. pose proof (reachable_well_formed s Hreach) as Hwf.
  assert (Hall : well_formed tbl s' /\ entries s' ≡ₚ entries s /\
                 m_tableCount s' = m_tableCount s).
  { destruct Hre as [Hr|Hg].
    - destruct (Reallocate_Ok s _ s' Hwf Hr) as (? & ? & ? & _). auto.
    - destruct (Grow_Ok s s' Hwf Hg) as (? & ? & ? & _). auto. }
  destruct Hall as (Hwf' & Hp & Hc). split; [exact Hp|]. split; [exact Hc|].
  intros k pVal r Hl. apply (Lookup_true s k pVal r Hwf) in Hl as (n & Hfind & ->).
  apply Lookup_present; [exact Hwf'|].
  rewrite <- Hfind. apply find_node_perm; [apply well_formed_distinct, Hwf'|exact Hp].
Qed.

Lemma spec_step_counts (c : spec_contents Key Value) (o : op Key Value) :
  0 <= spec_removed c -> 0 <= spec_inserted c ->
  0 <= spec_removed (spec_step c o) /\
  spec_inserted c <= spec_inserted (spec_step c o) <= spec_inserted c + 1.
Proof.
  intros Hr Hi. destruct o as [k v kind|k d|k v|k| |n|k]; simpl;
    unfold spec_insert, spec_remove;
    try destruct (spec_value c k); simpl; lia.
Qed.

Lemma spec_run_counts (ops : list (op Key Value)) :
  forall c, 0 <= spec_removed c -> 0 <= spec_inserted c ->
    0 <= spec_removed (fold_left spec_step ops c) /\
    spec_inserted (fold_left spec_step ops c) <= spec_inserted c + Z.of_nat (length ops).
Proof.
  induction ops as [|o ops IH]; simpl; intros c Hr Hi; [lia|].
  destruct (spec_step_counts c o Hr Hi) as [Hr' Hi'].
  destruct (IH (spec_step c o) Hr' ltac:(lia)) as [Hr'' Hi'']. lia.
Qed.

(** C5, as the code has it.  After any sequence of calls that all
    return, [GetCount] is the number of insertions that put a key in --
    [Set], [LookupPointerOrAdd] or [Emplace] of a key that is not in the
    table at that time, so a key removed and inserted again counts
    again -- minus the number of keys taken out -- by [Remove] of a key
    that is in, and all the keys that are in by [RemoveAll] -- as the
    32-bit counter holds it: it is that number exactly whenever fewer
    than 2^32 calls have been made.  Growth and rehash are among the
    calls and do not change it.  After [RemoveAll] it is zero. *)
Theorem GetCount_inserted_minus_removed (ops : list (op Key Value)) s :
  run tbl empty_table ops = Ok s ->
  GetCount s
    = to_unsigned (spec_inserted (spec_run ops) - spec_removed (spec_run ops)) /\
  (Z.of_nat (length ops) < UINT_RANGE ->
   GetCount s = spec_inserted (spec_run ops) - spec_removed (spec_run ops)) /\
  GetCount (RemoveAll s) = 0.
Proof.
  intros Hrun.
  destruct (run_from_empty ops s Hrun) as [Hwf [_ Hn]].
  assert (Hmod : GetCount s
    = to_unsigned (spec_inserted (spec_run ops) - spec_removed (spec_run ops))).
  { unfold GetCount. rewrite (well_formed_count s Hwf), Hn. reflexivity. }
  split; [exact Hmod|]. split; [|reflexivity].
  intros Hlen. rewrite Hmod.
  destruct (spec_run_counts ops spec_empty ltac:(simpl; lia) ltac:(simpl; lia))
    as [Hr Hi].
  simpl in Hi. fold (spec_run ops) in Hi, Hr.
  apply to_unsigned_small. unfold is_unsigned. lia.
Qed.


(** ** Set *)

Lemma CheckGrowth_allocated s s1 :
  well_formed tbl s -> CheckGrowth tbl s = Ok s1 -> is_Some (m_table s1).
Proof.
  intros Hwf. unfold CheckGrowth.
  destruct (Z.eqb_spec (m_tableCount s) (m_tableMax s)) as [Heq|Hne].
  - intros Hg. apply (Grow_Ok s s1 Hwf) in Hg as (_ & _ & _ & _ & _ & Hs). exact Hs.
  - intros [= <-]. unfold well_formed in Hwf.
    destruct (m_table s); [eauto|]. destruct Hwf as (_ & Hc & Hm). congruence.
Qed.

(** With exact magic numbers the common head of the insertion paths
    fails only if the growth check does. *)
Lemma locate_total s k s1 :
  forallb magic_okb tbl = true -> well_formed tbl s ->
  CheckGrowth tbl s = Ok s1 ->
  exists (index : Z) head, locate tbl s k = Ok (s1, index, head).
Proof.
  intros Hmagic Hwf Hg.
  destruct (CheckGrowth_Ok s s1 Hwf Hg) as (Hwf1 & _).
  destruct (CheckGrowth_allocated s s1 Hwf Hg) as [buckets Ht].
  destruct (GetIndexForKey_exact s1 k buckets Hmagic Hwf1 Ht) as (i & head & Hi & Hl & Hnz).
  exists (Z.of_nat i), head. unfold locate. rewrite Hg. simpl.
  destruct (Z.eqb_spec (prime (m_tableSizeInfo s1)) 0) as [|_]; [contradiction|].
  simpl. rewrite Hi. simpl. unfold read_bucket. rewrite Ht, Nat2Z.id, Hl.
  reflexivity.
Qed.


(** ** The size of the bucket array *)

Lemma table_spacedb_spec (a b : JitPrimeInfo) :
  table_spacedb tbl = true -> a ∈ tbl -> b ∈ tbl ->
  prime b <= prime a \/ prime a < density_threshold (prime b).
Proof.
  unfold table_spacedb. rewrite forallb_forall. intros Hsp Ha Hb.
  specialize (Hsp b (proj1 (list_elem_of_In _ _) Hb)).
  rewrite forallb_forall in Hsp.
  specialize (Hsp a (proj1 (list_elem_of_In _ _) Ha)).
  apply orb_prop in Hsp as [Hle|Hlt]; [left|right]; lia.
Qed.

(** The growth check never installs a smaller bucket array. *)
Lemma CheckGrowth_monotone s s1 :
  table_spacedb tbl = true -> well_formed tbl s ->
  CheckGrowth tbl s = Ok s1 -> bucket_count s <= bucket_count s1.
Proof.
  intros Hsp Hwf. unfold CheckGrowth, bucket_count.
  destruct (Z.eqb_spec (m_tableCount s) (m_tableMax s)) as [Heq|Hne].
  2:{ intros [= <-]. lia. }
  intros Hg. apply (Grow_Ok s s1 Hwf) in Hg as (_ & _ & _ & Hle & Hin1 & _).
  pose proof (well_formed_count s Hwf) as Hcnt.
  pose proof (to_unsigned_range (Z.of_nat (length (entries s)))) as [Hnn _].
  unfold well_formed in Hwf. destruct (m_table s) as [buckets|].
  - destruct Hwf as (Hin & _ & Hmax & _).
    destruct (table_spacedb_spec _ _ Hsp Hin1 Hin) as [Hok|Hbad]; [exact Hok|].
    rewrite <- Hmax, <- Heq in Hbad. lia.
  - destruct Hwf as (-> & _). simpl. lia.
Qed.

Lemma locate_bucket_count s k s1 (index : Z) head :
  table_spacedb tbl = true -> well_formed tbl s ->
  locate tbl s k = Ok (s1, index, head) -> bucket_count s <= bucket_count s1.
Proof.
  intros Hsp Hwf Hl. destruct (locate_Ok s k s1 index head Hwf Hl) as (Hg & _).
  exact (CheckGrowth_monotone s s1 Hsp Hwf Hg).
Qed.

(** C7, as the code has it.  The bucket array of a table a program can
    build either does not exist (length 0: a new table, or one after
    [RemoveAll]) or has the length of an entry of the static table.  With
    the entries of the static table spaced as the header describes, no
    insertion, removal of a key or lookup makes the array shorter;
    [RemoveAll] releases it (length 0); [Reallocate] installs the entry
    [NextPrime] chooses for the size asked for. *)
Theorem bucket_count_steps s (o : op Key Value) s' :
  table_spacedb tbl = true ->
  reachable tbl s -> step tbl s o = Ok s' ->
  (m_table s = None /\ bucket_count s = 0 \/ m_tableSizeInfo s ∈ tbl) /\
  match o with
  | OpRemoveAll => m_table s' = None /\ bucket_count s' = 0
  | OpReallocate n =>
      NextPrime tbl (to_unsigned n) = Ok (m_tableSizeInfo s') /\
      to_unsigned n <= bucket_count s'
  | _ => bucket_count s <= bucket_count s'
  end.
Proof.
  intros Hsp Hreach Hstep. pose proof (reachable_well_formed s Hreach) as Hwf.
  split.
  { unfold well_formed, bucket_count in *. destruct (m_table s).
    - right. apply Hwf.
    - left. destruct Hwf as (-> & _). auto. }
  destruct o as [k v kind|k d|k v|k| |n|k]; simpl in Hstep.
  - apply bind_Ok in Hstep as ([b r] & Hset & [= <-]). unfold Set_ in Hset.
    apply bind_Ok in Hset as ([[s1 index] head] & Hl & Hset).
    pose proof (locate_bucket_count _ _ _ _ _ Hsp Hwf Hl) as Hle.
    destruct (find_node k head).
    + apply bind_Ok in Hset as (_ & _ & [= <- <-]). exact Hle.
    + injection Hset as <- <-. exact Hle.
  - apply bind_Ok in Hstep as ([b r] & Hadd & [= <-]). unfold LookupPointerOrAdd in Hadd.
    apply bind_Ok in Hadd as ([[s1 index] head] & Hl & Hadd).
    pose proof (locate_bucket_count _ _ _ _ _ Hsp Hwf Hl) as Hle.
    destruct (find_node k head); injection Hadd as <- <-; exact Hle.
  - apply bind_Ok in Hstep as ([b r] & Hadd & [= <-]). unfold Emplace in Hadd.
    apply bind_Ok in Hadd as ([[s1 index] head] & Hl & Hadd).
    pose proof (locate_bucket_count _ _ _ _ _ Hsp Hwf Hl) as Hle.
    destruct (find_node k head); injection Hadd as <- <-; exact Hle.
  - apply bind_Ok in Hstep as ([b r] & Hrm & [= <-]). unfold Remove in Hrm.
    apply bind_Ok in Hrm as (index & _ & Hrm).
    apply bind_Ok in Hrm as (head & _ & Hrm).
    destruct (find_node k head); injection Hrm as <- <-; unfold bucket_count; simpl; lia.
  - injection Hstep as <-. split; reflexivity.
  - destruct (Reallocate_Ok s _ s' Hwf Hstep) as (_ & _ & _ & Hq & _).
    split; [exact Hq|]. apply NextPrime_from_Ok in Hq as [_ Hle]. exact Hle.
  - apply bind_Ok in Hstep as (_ & _ & [= <-]). lia.
Qed.

(** ** Iteration *)








(** ** When the insertion paths return *)

Lemma nodes_from_entries s :
  well_formed tbl s ->
  nodes_from (m_table s) 0 (Z.to_nat (prime (m_tableSizeInfo s))) = Ok (entries s).
Proof.
  unfold well_formed, entries. destruct (m_table s) as [buckets|].
  - intros (_ & Hlen & _). rewrite <- Hlen. apply nodes_from_all.
  - intros (-> & _). reflexivity.
Qed.

Lemma relink_all_total (q : JitPrimeInfo) (nodes : list (Node Key Value)) :
  forall buckets,
    Forall (fun n => exists r : Z,
              magicNumberRem q (hash_of (m_key n)) = Ok r /\
              (Z.to_nat r < length buckets)%nat) nodes ->
    exists buckets', relink_all q buckets nodes = Ok buckets'.
Proof.
  induction nodes as [|n nodes IH]; intros buckets Hall; simpl; [eauto|].
  inversion Hall as [|? ? (r & Hrem & Hlt) Hrest]; subst.
  unfold relink. rewrite Hrem. cbn [bind].
  apply lookup_lt_is_Some_2 in Hlt as [head Hlook].
  unfold read_bucket. rewrite Hlook. cbn [bind].
  apply IH. rewrite length_insert. exact Hrest.
Qed.

(** [Reallocate] returns when its assertion holds, the static table has
    an entry large enough, and the magic number of that entry is exact
    for the hash codes of the keys in the table. *)
Lemma Reallocate_total s (newTableSize : Z) (q : JitPrimeInfo) :
  well_formed tbl s ->
  to_unsigned (GetCount s * s_density_factor_denominator)
    / s_density_factor_numerator <= newTableSize ->
  NextPrime tbl newTableSize = Ok q -> 0 < prime q ->
  Forall (fun n => exists r : Z, magicNumberRem q (hash_of (m_key n)) = Ok r)
         (entries s) ->
  exists s', Reallocate tbl s newTableSize = Ok s'.
Proof.
  intros Hwf Hassert Hq Hpos Hall. unfold Reallocate.
  destruct (Z.leb_spec
              (to_unsigned (GetCount s * s_density_factor_denominator)
                 / s_density_factor_numerator) newTableSize) as [_|]; [|lia].
  cbn [assert bind]. rewrite Hq. cbn [bind].
  rewrite (nodes_from_entries s Hwf). cbn [bind].
  destruct (relink_all_total q (entries s)
              (replicate (Z.to_nat (prime q)) ([] : chain Key Value))) as [nt Hnt].
  { eapply Forall_impl; [exact Hall|]. intros n (r & Hrem). exists r.
    split; [exact Hrem|]. rewrite length_replicate.
    destruct (magicNumberRem_Ok _ _ _ Hrem) as [_ ->].
    pose proof (Z.mod_pos_bound (hash_of (m_key n)) (prime q) Hpos). lia. }
  rewrite Hnt. cbn [bind]. eauto.
Qed.

(** The common head of the insertion paths returns when the growth check
    does and the magic number in place is exact for the hash code of the
    key. *)
Lemma locate_after_growth s k s1 (r : Z) :
  well_formed tbl s -> CheckGrowth tbl s = Ok s1 ->
  0 < prime (m_tableSizeInfo s1) ->
  magicNumberRem (m_tableSizeInfo s1) (hash_of k) = Ok r ->
  exists head, locate tbl s k = Ok (s1, r, head).
Proof.
  intros Hwf Hg Hpos Hrem.
  destruct (CheckGrowth_Ok s s1 Hwf Hg) as (Hwf1 & _).
  destruct (CheckGrowth_allocated s s1 Hwf Hg) as [buckets Ht].
  unfold locate. rewrite Hg. cbn [bind].
  destruct (Z.eqb_spec (prime (m_tableSizeInfo s1)) 0) as [|_]; [lia|].
  cbn [negb assert bind]. unfold GetIndexForKey. rewrite Hrem. cbn [bind].
  unfold well_formed in Hwf1. rewrite Ht in Hwf1. destruct Hwf1 as (_ & Hlen & _).
  destruct (magicNumberRem_Ok _ _ _ Hrem) as [_ Hr].
  pose proof (Z.mod_pos_bound (hash_of k) (prime (m_tableSizeInfo s1)) Hpos).
  assert (Hlt : (Z.to_nat r < length buckets)%nat) by lia.
  apply lookup_lt_is_Some_2 in Hlt as [head Hlook].
  exists head. unfold read_bucket. rewrite Ht, Hlook. reflexivity.
Qed.

(** [Set] of a key that is not in, once the growth check has returned. *)
Lemma Set_absent s k v (kind : SetKind) s1 (l : list (Node Key Value)) (r : Z) :
  well_formed tbl s -> entries s ≡ₚ l -> find_node k l = None ->
  CheckGrowth tbl s = Ok s1 ->
  0 < prime (m_tableSizeInfo s1) ->
  magicNumberRem (m_tableSizeInfo s1) (hash_of k) = Ok r ->
  exists s',
    Set_ tbl s k v kind = Ok (false, s') /\
    well_formed tbl s' /\
    m_tableSizeInfo s' = m_tableSizeInfo s1 /\
    m_tableMax s' = m_tableMax s1 /\
    m_tableCount s' = to_unsigned (m_tableCount s + 1) /\
    entries s' ≡ₚ mkNode k v :: l.
Proof.
  intros Hwf Hl Habs Hg Hpos Hrem.
  destruct (locate_after_growth s k s1 r Hwf Hg Hpos Hrem) as [head Hloc].
  destruct (locate_Ok s k s1 r head Hwf Hloc)
    as (_ & Hwf1 & Hp & Hc & Hnn & _ & (buckets & Ht & Hlook) & Hfind).
  assert (Hnone : find_node k (entries s1) = None).
  { rewrite <- Habs. apply find_node_perm; [apply well_formed_distinct, Hwf1|].
    rewrite Hp. exact Hl. }
  destruct (link_front_Ok s1 buckets r head k v Hwf1 Ht Hnn Hlook Hrem Hnone)
    as [Hwf' Hp'].
  exists (link_front s1 r head k v).
  unfold Set_. rewrite Hloc. cbn [bind]. rewrite Hfind, Hnone.
  repeat split; auto.
  - simpl. rewrite Hc. reflexivity.
  - rewrite Hp', Hp, Hl. reflexivity.
Qed.

(** No growth while the count is not the threshold. *)
Lemma CheckGrowth_below s :
  m_tableCount s <> m_tableMax s -> CheckGrowth tbl s = Ok s.
Proof.
  intros Hne. unfold CheckGrowth.
  destruct (Z.eqb_spec (m_tableCount s) (m_tableMax s)); [contradiction | reflexivity].
Qed.

(** Growth when the count is the threshold: the size asked for is
    [grow_request] of the count, at least the minimum allocation, and the
    descriptor installed is the one [NextPrime] gives for it. *)
Lemma CheckGrowth_at_threshold s (q : JitPrimeInfo) :
  well_formed tbl s -> m_tableCount s = m_tableMax s ->
  let newSize := Z.max (grow_request (m_tableCount s)) s_minimum_allocation in
  m_tableCount s <= newSize ->
  to_unsigned (GetCount s * s_density_factor_denominator)
    / s_density_factor_numerator <= newSize ->
  NextPrime tbl newSize = Ok q -> 0 < prime q ->
  Forall (fun n => exists r : Z, magicNumberRem q (hash_of (m_key n)) = Ok r)
         (entries s) ->
  exists s1,
    CheckGrowth tbl s = Ok s1 /\ Grow tbl s = Ok s1 /\
    Reallocate tbl s newSize = Ok s1 /\
    m_tableSizeInfo s1 = q /\ m_tableMax s1 = density_threshold (prime q).
Proof.
  intros Hwf Heq newSize Hge Hassert Hq Hpos Hall.
  destruct (Reallocate_total s newSize q Hwf Hassert Hq Hpos Hall) as [s1 Hr].
  destruct (Reallocate_Ok s newSize s1 Hwf Hr) as (_ & _ & _ & Hq' & Hmax & _).
  assert (Hsi : m_tableSizeInfo s1 = q) by congruence.
  exists s1. unfold CheckGrowth, Grow.
  assert (Hns : (if grow_request (m_tableCount s) <? s_minimum_allocation
                 then s_minimum_allocation else grow_request (m_tableCount s)) = newSize).
  { subst newSize. destruct (Z.ltb_spec (grow_request (m_tableCount s))
                               s_minimum_allocation); lia. }
  rewrite Hns. destruct (Z.eqb_spec (m_tableCount s) (m_tableMax s)); [|contradiction].
  destruct (Z.ltb_spec newSize (m_tableCount s)); [lia|].
  rewrite <- Hsi at 2. auto.
Qed.

(** In an ascending table the entry [NextPrime] returns is the smallest
    that is large enough. *)
Lemma ascendingb_head (a : JitPrimeInfo) (l : list JitPrimeInfo) :
  ascendingb (a :: l) = true -> Forall (fun b => prime a < prime b) l /\ ascendingb l = true.
Proof.
  revert a. induction l as [|b l IH]; intros a Hasc.
  - split; [constructor | reflexivity].
  - simpl in Hasc. apply andb_prop in Hasc as [Hab Hrest].
    apply Z.ltb_lt in Hab. destruct (IH b Hrest) as [Hall _].
    split; [|exact Hrest]. constructor; [exact Hab|].
    eapply Forall_impl; [exact Hall|]. intros c Hc. simpl in Hc. lia.
Qed.

Lemma NextPrime_from_smallest (l : list JitPrimeInfo) (number : Z) (q : JitPrimeInfo) :
  ascendingb l = true -> NextPrime_from l number = Ok q ->
  Forall (fun b => number <= prime b -> prime q <= prime b) l.
Proof.
  induction l as [|a l IH]; intros Hasc Hq; [constructor|].
  destruct (ascendingb_head a l Hasc) as [Hlt Hasc']. simpl in Hq.
  destruct (Z.leb_spec number (prime a)) as [Hle|Hgt].
  - injection Hq as <-. constructor; [lia|].
    eapply Forall_impl; [exact Hlt|]. intros b Hb _. simpl in Hb. lia.
  - constructor; [lia | exact (IH Hasc' Hq)].
Qed.

(** ** Removal *)

(** On a table with a bucket array, and exact magic numbers, removing a
    key that is not in returns [false] and changes nothing. *)
Lemma Remove_absent_allocated s k :
  forallb magic_okb tbl = true ->
  well_formed tbl s -> is_Some (m_table s) ->
  find_node k (entries s) = None ->
  Remove s k = Ok (false, s).
Proof.
  intros Hmagic Hwf [buckets Ht] Habs.
  destruct (GetIndexForKey_exact s k buckets Hmagic Hwf Ht) as (i & head & Hi & Hl & _).
  unfold Remove. rewrite Hi. cbn [bind]. unfold read_bucket.
  rewrite Ht, Nat2Z.id, Hl. cbn [bind].
  rewrite (bucket_find s buckets i head k Hwf Ht Hl Hi), Habs. reflexivity.
Qed.

End Invariants.

(** ** The magic numbers; removal without a bucket array *)

(** C3. For every entry of a static table as the spec describes it (each
    entry carrying a magic multiplier and shift for its prime) and every
    32-bit [x], the multiply-and-shift quotient is [x / prime] and the
    remainder computed from it is [x mod prime]; the assertion of
    [magicNumberRem] holds. *)
Theorem magicNumberRem_is_remainder (tbl : list JitPrimeInfo) (pi : JitPrimeInfo) (x : Z) :
  prime_table_ok tbl -> pi ∈ tbl -> is_unsigned x ->
  magicNumberDivide pi x = Ok (x / prime pi) /\
  magicNumberRem pi x = Ok (x mod prime pi).
Proof.
  intros [Hmagic _] Hin Hx. rewrite forallb_forall in Hmagic.
  assert (Hok : magic_okb pi = true) by (apply Hmagic, list_elem_of_In, Hin).
  split; [apply magicNumberDivide_exact | apply magicNumberRem_exact]; assumption.
Qed.

(** C6, on a table without a bucket array -- a new one, or one after
    [RemoveAll] -- [Remove] does not return [false]: [GetIndexForKey]
    takes the remainder by a prime of zero (the assertion of
    [magicNumberRem] divides by zero) and [m_table[index]] is read through
    [nullptr]. *)
Theorem Remove_without_bucket_array {Key Value : Type} `{KeyFuncs Key}
    (s : JitHashTable Key Value) (k : Key) :
  Remove (empty_table : JitHashTable Key Value) k = Err Undefined /\
  Remove (RemoveAll s) k = Err Undefined.
Proof. split; reflexivity. Qed.

(** ** Instances for the examples *)

#[export] Instance JitSmallPrimitiveKeyFuncs_laws : KeyFuncsLaws Z.
Proof.
  split; simpl.
  - apply Z.eqb_refl.
  - apply Z.eqb_sym.
  - intros a b c Hab Hbc. apply Z.eqb_eq in Hab, Hbc. apply Z.eqb_eq. congruence.
  - intros a b Hab. apply Z.eqb_eq in Hab. congruence.
Qed.

(** The 27-entry instance is a table as the spec describes it, spaced as
    the header says. *)
Lemma jitPrimeInfo_ok : prime_table_ok jitPrimeInfo.
Proof. split; vm_compute; reflexivity. Qed.

Lemma jitPrimeInfo_spaced : table_spacedb jitPrimeInfo = true.
Proof. vm_compute. reflexivity. Qed.

(** Each of its 27 magic numbers gives the remainder for every 32-bit
    numerator. *)
Lemma jitPrimeInfo_exact (pi : JitPrimeInfo) (x : Z) :
  pi ∈ jitPrimeInfo -> is_unsigned x ->
  magicNumberRem pi x = Ok (x mod prime pi).
Proof.
  intros Hin Hx. apply magicNumberRem_exact; [|exact Hx].
  destruct jitPrimeInfo_ok as [Hmagic _]. rewrite forallb_forall in Hmagic.
  apply Hmagic, list_elem_of_In, Hin.
Qed.

(** ** The growth scenario *)

(** No 32-bit multiplier and shift give the remainder by 7 for every
    numerator: 7 cannot be an entry of a table with exact magic numbers,
    and the smallest array has more than 7 slots. *)
Lemma magic_okb_7 (m s : Z) : magic_okb (mkPrimeInfo 7 m s) = false.
Proof.
  destruct (magic_okb (mkPrimeInfo 7 m s)) eqn:Hok; [|reflexivity].
  exfalso. apply magic_okb_spec in Hok as (_ & Hm & Hs & Hlo & Hhi). simpl in *.
  assert (Hcases : s = 0 \/ s = 1 \/ s = 2 \/ 3 <= s) by lia.
  destruct Hcases as [->|[->|[->|Hbig]]].
  - change (2 ^ (32 + 0)) with 4294967296 in *. change (2 ^ 0) with 1 in *. lia.
  - change (2 ^ (32 + 1)) with 8589934592 in *. change (2 ^ 1) with 2 in *. lia.
  - change (2 ^ (32 + 2)) with 17179869184 in *. change (2 ^ 2) with 4 in *. lia.
  - assert (Hpow : 2 ^ 35 <= 2 ^ (32 + s)) by (apply Z.pow_le_mono_r; lia).
    change (2 ^ 35) with 34359738368 in Hpow. change (2 ^ 32) with 4294967296 in Hm. lia.
Qed.

(** So, with the default behaviour, the array the first insertion allocates
    -- of the first stored prime of at least 7 -- has at least 8 slots, and
    its threshold is at least 6 (the product by 3 not wrapping): on no
    table with exact magic numbers is the threshold 5. *)
Lemma first_allocation_threshold (tbl : list JitPrimeInfo) (q0 : JitPrimeInfo) :
  forallb magic_okb tbl = true -> NextPrime tbl 7 = Ok q0 ->
  8 <= prime q0 /\
  (prime q0 * 3 < UINT_RANGE -> 6 <= density_threshold (prime q0)).
Proof.
  intros Hall Hq. rewrite forallb_forall in Hall.
  destruct (NextPrime_from_Ok tbl 7 q0 Hq) as [Hin Hge].
  assert (Hok : magic_okb q0 = true) by (apply Hall, list_elem_of_In, Hin).
  assert (Hne : prime q0 <> 7).
  { intros H7. destruct q0 as [p m s]. simpl in H7. subst p.
    rewrite magic_okb_7 in Hok. discriminate. }
  assert (H8 : 8 <= prime q0) by lia.
  split; [exact H8|]. intros Hroom. unfold density_threshold.
  cbn [s_density_factor_numerator s_density_factor_denominator JitHashTableBehavior].
  rewrite to_unsigned_small by (unfold is_unsigned; lia).
  apply Z.div_le_lower_bound; lia.
Qed.

Section GrowthScenario.

Context {Value : Type}.

Variable tbl : list JitPrimeInfo.
Variables q0 q1 : JitPrimeInfo.
Variables v1 v2 v3 v4 v5 v6 v7 old : Value.

Hypothesis exact_tbl : forallb magic_okb tbl = true.
Hypothesis NextPrime_7 : NextPrime tbl 7 = Ok q0.
Hypothesis prime_q0 : prime q0 = 9.
Hypothesis NextPrime_12 : NextPrime tbl 12 = Ok q1.

Lemma exact_entry (pi : JitPrimeInfo) (x : Z) :
  pi ∈ tbl -> exists r, magicNumberRem pi (hash_of x) = Ok r.
Proof.
  intros Hin. pose proof exact_tbl as Hall. rewrite forallb_forall in Hall.
  exists (hash_of x mod prime pi). apply magicNumberRem_exact.
  - apply Hall, list_elem_of_In, Hin.
  - apply to_unsigned_range.
Qed.

(** One insertion of the scenario while the count is below the threshold. *)
Lemma scenario_step (s : JitHashTable Z Value) (k : Z) (v : Value)
    (l : list (Node Z Value)) (count : Z) :
  well_formed tbl s -> m_tableSizeInfo s = q0 -> m_tableMax s = 6 ->
  m_tableCount s = count -> count <> 6 ->
  entries s ≡ₚ l -> find_node k l = None ->
  exists s',
    CheckGrowth tbl s = Ok s /\
    Set_ tbl s k v KindNone = Ok (false, s') /\
    well_formed tbl s' /\ m_tableSizeInfo s' = q0 /\ m_tableMax s' = 6 /\
    m_tableCount s' = to_unsigned (count + 1) /\
    entries s' ≡ₚ mkNode k v :: l.
Proof.
  intros Hwf Hsi Hmax Hcnt Hne Hent Habs.
  assert (Hg : CheckGrowth tbl s = Ok s) by (apply CheckGrowth_below; lia).
  destruct (NextPrime_from_Ok tbl 7 q0 NextPrime_7) as [Hin _].
  destruct (exact_entry q0 k Hin) as [r Hr].
  destruct (Set_absent tbl s k v KindNone s l r Hwf Hent Habs Hg
              ltac:(rewrite Hsi; lia) ltac:(rewrite Hsi; exact Hr))
    as (s' & Hset & Hwf' & Hsi' & Hmax' & Hcnt' & Hent').
  exists s'. rewrite Hsi' , Hmax', Hcnt', Hcnt. repeat split; assumption.
Qed.

Lemma scenario_lookup (s : JitHashTable Z Value) (k : Z) (n : Node Z Value)
    (l : list (Node Z Value)) (pVal : Value) :
  well_formed tbl s -> entries s ≡ₚ l -> find_node k l = Some n ->
  Lookup s k (Some pVal) = Ok (true, Some (m_val n)).
Proof.
  intros Hwf Hent Hfind. apply (Lookup_present tbl s k n (Some pVal) Hwf).
  rewrite <- Hfind. apply find_node_perm; [|exact Hent].
  apply (well_formed_distinct tbl), Hwf.
Qed.

(** C4, as the code has it.  Default behaviour (minimum allocation 7,
    growth 3/2, density 3/4), keys 1 to 7 hashed by their value, a static
    table with exact magic numbers whose first entry of at least 7 is
    [q0], with prime 9, and whose first entry of at least 12 is [q1] --
    as in the table of 27 entries, where these are 9 and 23.  On a new
    table the first insertion allocates the bucket array: the growth
    check calls [Reallocate] with the minimum allocation, the array gets
    9 slots and the threshold is 6, not 5.  Keys 2 to 5 go in with no
    growth and [GetCount] is 5.  Key 6 goes in with no growth either: the
    check before it finds the count, 5, below the threshold; [GetCount]
    is 6 and the six keys are found with their values.  The check before
    key 7 finds the count at the threshold and grows: the size asked for
    is [((6 * 3) / 2 * 4) / 3 = 12] in truncating unsigned arithmetic,
    and the array gets the size of [q1], the first -- in an ascending
    table the smallest -- stored entry of at least 12.  All seven keys
    are then found with their values. *)
Theorem growth_scenario :
  exists s1 s2 s3 s4 s5 s6 s7 : JitHashTable Z Value,
    (* the first insertion allocates the bucket array *)
    CheckGrowth tbl (empty_table : JitHashTable Z Value)
      = Reallocate tbl empty_table s_minimum_allocation /\
    Set_ tbl empty_table 1 v1 KindNone = Ok (false, s1) /\
    bucket_count s1 = 9 /\ m_tableMax s1 = 6 /\
    (* keys 2 to 5: no growth *)
    Set_ tbl s1 2 v2 KindNone = Ok (false, s2) /\
    Set_ tbl s2 3 v3 KindNone = Ok (false, s3) /\
    Set_ tbl s3 4 v4 KindNone = Ok (false, s4) /\
    Set_ tbl s4 5 v5 KindNone = Ok (false, s5) /\
    Forall (fun s => CheckGrowth tbl s = Ok s) [s1; s2; s3; s4] /\
    m_tableSizeInfo s5 = q0 /\ GetCount s5 = 5 /\ m_tableMax s5 = 6 /\
    (* key 6: no growth *)
    CheckGrowth tbl s5 = Ok s5 /\
    Set_ tbl s5 6 v6 KindNone = Ok (false, s6) /\
    m_tableSizeInfo s6 = q0 /\ bucket_count s6 = 9 /\ GetCount s6 = 6 /\
    Lookup s6 1 (Some old) = Ok (true, Some v1) /\
    Lookup s6 2 (Some old) = Ok (true, Some v2) /\
    Lookup s6 3 (Some old) = Ok (true, Some v3) /\
    Lookup s6 4 (Some old) = Ok (true, Some v4) /\
    Lookup s6 5 (Some old) = Ok (true, Some v5) /\
    Lookup s6 6 (Some old) = Ok (true, Some v6) /\
    (* key 7: growth, asking for 12 slots *)
    GetCount s6 = m_tableMax s6 /\
    grow_request (GetCount s6) = 12 /\
    CheckGrowth tbl s6 = Reallocate tbl s6 12 /\
    Set_ tbl s6 7 v7 KindNone = Ok (false, s7) /\
    m_tableSizeInfo s7 = q1 /\ q1 ∈ tbl /\ 12 <= bucket_count s7 /\
    (ascendingb tbl = true ->
     Forall (fun b => 12 <= prime b -> bucket_count s7 <= prime b) tbl) /\
    GetCount s7 = 7 /\
    Lookup s7 1 (Some old) = Ok (true, Some v1) /\
    Lookup s7 2 (Some old) = Ok (true, Some v2) /\
    Lookup s7 3 (Some old) = Ok (true, Some v3) /\
    Lookup s7 4 (Some old) = Ok (true, Some v4) /\
    Lookup s7 5 (Some old) = Ok (true, Some v5) /\
    Lookup s7 6 (Some old) = Ok (true, Some v6) /\
    Lookup s7 7 (Some old) = Ok (true, Some v7).
Proof.
  pose proof (@well_formed_empty Z Value _ _ tbl) as Hwf0.
  destruct (NextPrime_from_Ok tbl 7 q0 NextPrime_7) as [Hq0in _].
  destruct (NextPrime_from_Ok tbl 12 q1 NextPrime_12) as [Hq1in Hq12].
  (* key 1 *)
  destruct (CheckGrowth_at_threshold tbl empty_table q0 Hwf0 eq_refl)
    as (a0 & Hg0 & _ & Hr0 & Hsi0 & Hmax0);
    [vm_compute; discriminate | vm_compute; discriminate | exact NextPrime_7
    | lia | constructor |].
  rewrite prime_q0 in Hmax0. change (density_threshold 9) with 6 in Hmax0.
  destruct (exact_entry q0 1 Hq0in) as [r1 Hr1].
  destruct (Set_absent tbl empty_table 1 v1 KindNone a0 [] r1 Hwf0
              ltac:(reflexivity) eq_refl Hg0 ltac:(rewrite Hsi0; lia)
              ltac:(rewrite Hsi0; exact Hr1))
    as (s1 & Hset1 & Hwf1 & Hsi1 & Hmax1 & Hcnt1 & Hent1).
  rewrite Hsi0 in Hsi1. rewrite Hmax0 in Hmax1.
  change (to_unsigned (m_tableCount empty_table + 1)) with 1 in Hcnt1.
  (* keys 2 to 6 *)
  destruct (scenario_step s1 2 v2 _ 1 Hwf1 Hsi1 Hmax1 Hcnt1 ltac:(lia) Hent1 eq_refl)
    as (s2 & Hg1 & Hset2 & Hwf2 & Hsi2 & Hmax2 & Hcnt2 & Hent2).
  change (to_unsigned (1 + 1)) with 2 in Hcnt2.
  destruct (scenario_step s2 3 v3 _ 2 Hwf2 Hsi2 Hmax2 Hcnt2 ltac:(lia) Hent2 eq_refl)
    as (s3 & Hg2 & Hset3 & Hwf3 & Hsi3 & Hmax3 & Hcnt3 & Hent3).
  change (to_unsigned (2 + 1)) with 3 in Hcnt3.
  destruct (scenario_step s3 4 v4 _ 3 Hwf3 Hsi3 Hmax3 Hcnt3 ltac:(lia) Hent3 eq_refl)
    as (s4 & Hg3 & Hset4 & Hwf4 & Hsi4 & Hmax4 & Hcnt4 & Hent4).
  change (to_unsigned (3 + 1)) with 4 in Hcnt4.
  destruct (scenario_step s4 5 v5 _ 4 Hwf4 Hsi4 Hmax4 Hcnt4 ltac:(lia) Hent4 eq_refl)
    as (s5 & Hg4 & Hset5 & Hwf5 & Hsi5 & Hmax5 & Hcnt5 & Hent5).
  change (to_unsigned (4 + 1)) with 5 in Hcnt5.
  destruct (scenario_step s5 6 v6 _ 5 Hwf5 Hsi5 Hmax5 Hcnt5 ltac:(lia) Hent5 eq_refl)
    as (s6 & Hg5 & Hset6 & Hwf6 & Hsi6 & Hmax6 & Hcnt6 & Hent6).
  change (to_unsigned (5 + 1)) with 6 in Hcnt6.
  (* key 7 *)
  pose proof (CheckGrowth_at_threshold tbl s6 q1 Hwf6 ltac:(congruence)) as HG.
  cbv zeta in HG. unfold GetCount in HG. rewrite Hcnt6 in HG.
  change (Z.max (grow_request 6) s_minimum_allocation) with 12 in HG.
  destruct HG as (a6 & Hg6 & _ & Hr6 & Hsia & Hmaxa);
    [lia | vm_compute; discriminate | exact NextPrime_12 | lia | |].
  { rewrite Hent6. repeat constructor; simpl; apply (exact_entry q1 _ Hq1in). }
  destruct (exact_entry q1 7 Hq1in) as [r7 Hr7].
  destruct (Set_absent tbl s6 7 v7 KindNone a6 _ r7 Hwf6 Hent6 eq_refl Hg6
              ltac:(rewrite Hsia; lia) ltac:(rewrite Hsia; exact Hr7))
    as (s7 & Hset7 & Hwf7 & Hsi7 & _ & Hcnt7 & Hent7).
  rewrite Hsia in Hsi7. rewrite Hcnt6 in Hcnt7.
  change (to_unsigned (6 + 1)) with 7 in Hcnt7.
  exists s1, s2, s3, s4, s5, s6, s7.
  unfold bucket_count, GetCount.
  rewrite Hsi1, Hsi6, Hsi7, Hcnt5, Hcnt6, Hmax6, prime_q0, Hg6, Hr6.
  repeat match goal with |- _ /\ _ => split end;
    try assumption; try reflexivity.
  - repeat constructor; assumption.
  - apply (scenario_lookup s6 1 (mkNode 1 v1) _ old Hwf6 Hent6). reflexivity.
  - apply (scenario_lookup s6 2 (mkNode 2 v2) _ old Hwf6 Hent6). reflexivity.
  - apply (scenario_lookup s6 3 (mkNode 3 v3) _ old Hwf6 Hent6). reflexivity.
  - apply (scenario_lookup s6 4 (mkNode 4 v4) _ old Hwf6 Hent6). reflexivity.
  - apply (scenario_lookup s6 5 (mkNode 5 v5) _ old Hwf6 Hent6). reflexivity.
  - apply (scenario_lookup s6 6 (mkNode 6 v6) _ old Hwf6 Hent6). reflexivity.
  - intros Hasc. exact (NextPrime_from_smallest tbl 12 q1 Hasc NextPrime_12).
  - apply (scenario_lookup s7 1 (mkNode 1 v1) _ old Hwf7 Hent7). reflexivity.
  - apply (scenario_lookup s7 2 (mkNode 2 v2) _ old Hwf7 Hent7). reflexivity.
  - apply (scenario_lookup s7 3 (mkNode 3 v3) _ old Hwf7 Hent7). reflexivity.
  - apply (scenario_lookup s7 4 (mkNode 4 v4) _ old Hwf7 Hent7). reflexivity.
  - apply (scenario_lookup s7 5 (mkNode 5 v5) _ old Hwf7 Hent7). reflexivity.
  - apply (scenario_lookup s7 6 (mkNode 6 v6) _ old Hwf7 Hent7). reflexivity.
  - apply (scenario_lookup s7 7 (mkNode 7 v7) _ old Hwf7 Hent7). reflexivity.
Qed.

End GrowthScenario.

(** ** Concrete tables *)

Lemma example_small_reachable : reachable jitPrimeInfo example_small.
Proof. exists example_small_ops. vm_compute. reflexivity. Qed.

Lemma Lookup_returns_last_set_witness :
  run jitPrimeInfo empty_table example_ops = Ok example_table /\
  spec_value (spec_run example_ops) 2 = Some 21 /\
  Lookup example_table 2 (Some 0) = Ok (true, Some 21) /\
  Lookup example_table 2 None = Ok (true, None).
Proof.
  split; [vm_compute; reflexivity|]. split; [vm_compute; reflexivity|].
  apply (Lookup_returns_last_set jitPrimeInfo example_ops example_table 2 21 0);
    vm_compute; reflexivity.
Defined.

Lemma rehash_preserves_entries_witness :
  reachable jitPrimeInfo example_small /\
  (Reallocate jitPrimeInfo example_small 10 = Ok example_rehashed \/
   Grow jitPrimeInfo example_small = Ok example_rehashed) /\
  entries example_rehashed ≡ₚ entries example_small /\
  GetCount example_rehashed = GetCount example_small /\
  forall (k : Z) (pVal r : option Z),
    Lookup example_small k pVal = Ok (true, r) ->
    Lookup example_rehashed k pVal = Ok (true, r).
Proof.
  split; [exists example_small_ops; vm_compute; reflexivity|].
  split; [left; vm_compute; reflexivity|].
  apply (rehash_preserves_entries jitPrimeInfo example_small example_rehashed 10).
  - exists example_small_ops. vm_compute. reflexivity.
  - left. vm_compute. reflexivity.
Defined.

Lemma magicNumberRem_is_remainder_witness :
  prime_table_ok jitPrimeInfo /\
  mkPrimeInfo 733045421 0x5dbec447 28 ∈ jitPrimeInfo /\
  is_unsigned 4294967295 /\
  magicNumberDivide (mkPrimeInfo 733045421 0x5dbec447 28) 4294967295
    = Ok (4294967295 / 733045421) /\
  magicNumberRem (mkPrimeInfo 733045421 0x5dbec447 28) 4294967295
    = Ok (4294967295 mod 733045421).
Proof.
  assert (Hok : prime_table_ok jitPrimeInfo) by (split; vm_compute; reflexivity).
  assert (Hin : mkPrimeInfo 733045421 0x5dbec447 28 ∈ jitPrimeInfo)
    by (apply list_elem_of_In; vm_compute; tauto).
  assert (Hx : is_unsigned 4294967295) by (unfold is_unsigned, UINT_RANGE; lia).
  split; [exact Hok|]. split; [exact Hin|]. split; [exact Hx|].
  exact (magicNumberRem_is_remainder jitPrimeInfo _ 4294967295 Hok Hin Hx).
Defined.

(** C4, as stated, fails.  From a count of 5 [Grow] asks for 9 slots, not
    10 (the quotients are truncated one after the other), and on a new
    table the growth check of the very first insertion already grows.  On
    the table of 27 entries the array that insertion allocates has 9
    slots and the threshold 6, not 5: after keys 1 to 5 the count is 5 and
    key 6 goes in without growth. *)
Lemma grow_request_5_is_not_10 :
  grow_request 5 = 9 /\ grow_request 5 <> 10 /\
  CheckGrowth jitPrimeInfo (empty_table : JitHashTable Z Z)
    = Grow jitPrimeInfo empty_table /\
  CheckGrowth jitPrimeInfo (empty_table : JitHashTable Z Z) <> Ok empty_table /\
  (let! s5 := run jitPrimeInfo empty_table five_keys_ops in
   let! s6 := step jitPrimeInfo s5 (OpSet 6 60 KindNone) in
   Ok (GetCount s5, m_tableMax s5, bucket_count s5, bucket_count s6, GetCount s6))
  = Ok (5, 6, 9, 9, 6).
Proof.
  split; [reflexivity|]. split; [intros Heq; vm_compute in Heq; discriminate Heq|].
  split; [reflexivity|].
  split; [intros Heq; vm_compute in Heq; discriminate Heq|].
  vm_compute. reflexivity.
Qed.

Lemma growth_scenario_witness :
  forallb magic_okb jitPrimeInfo = true /\
  NextPrime jitPrimeInfo 7 = Ok (mkPrimeInfo 9 0x38e38e39 1) /\
  prime (mkPrimeInfo 9 0x38e38e39 1) = 9 /\
  NextPrime jitPrimeInfo 12 = Ok (mkPrimeInfo 23 0xb21642c9 4) /\
  exists s5 s6 s7 : JitHashTable Z Z,
    run jitPrimeInfo empty_table five_keys_ops = Ok s5 /\
    bucket_count s5 = 9 /\ m_tableMax s5 = 6 /\ GetCount s5 = 5 /\
    Set_ jitPrimeInfo s5 6 60 KindNone = Ok (false, s6) /\
    bucket_count s6 = 9 /\ GetCount s6 = 6 /\
    Set_ jitPrimeInfo s6 7 70 KindNone = Ok (false, s7) /\
    bucket_count s7 = 23 /\ GetCount s7 = 7 /\
    Lookup s7 6 (Some 0) = Ok (true, Some 60) /\
    Lookup s7 7 (Some 0) = Ok (true, Some 70).
Proof.
  assert (Hm : forallb magic_okb jitPrimeInfo = true) by (vm_compute; reflexivity).
  assert (H7 : NextPrime jitPrimeInfo 7 = Ok (mkPrimeInfo 9 0x38e38e39 1))
    by reflexivity.
  assert (H12 : NextPrime jitPrimeInfo 12 = Ok (mkPrimeInfo 23 0xb21642c9 4))
    by reflexivity.
  repeat (split; [assumption || reflexivity|]).
  destruct (growth_scenario jitPrimeInfo _ _ 10 20 30 40 50 60 70 0
              Hm H7 eq_refl H12)
    as (s1 & s2 & s3 & s4 & s5 & s6 & s7 & _ & S1 & _ & _ & S2 & S3 & S4 & S5 & _ &
        Hsi5 & Hc5 & Hmax5 & _ & S6 & _ & Hb6 & Hc6 & _ & _ & _ & _ & _ & _ &
        _ & _ & _ & S7 & Hsi7 & _ & _ & _ & Hc7 & _ & _ & _ & _ & _ & L6 & L7).
  exists s5, s6, s7. unfold five_keys_ops, run, step.
  rewrite S1; cbn [bind snd]. rewrite S2; cbn [bind snd].
  rewrite S3; cbn [bind snd]. rewrite S4; cbn [bind snd].
  rewrite S5; cbn [bind snd].
  unfold bucket_count in *. rewrite Hsi5, Hsi7.
  repeat split; try assumption; reflexivity.
Defined.

(** C5, as stated, fails: the count is not that of the distinct keys ever
    inserted less the keys removed.  Key 1 goes in, out and in again: one
    distinct key was ever inserted and one key was removed, which makes
    0, and [GetCount] is 1. *)
Lemma GetCount_counts_reinsertion :
  (let! s := run jitPrimeInfo empty_table reinsert_ops in Ok (GetCount s)) = Ok 1 /\
  distinct_keys_ever_inserted reinsert_ops = 1 /\
  keys_removed reinsert_ops = 1 /\
  claimed_count reinsert_ops = 0 /\
  spec_inserted (spec_run reinsert_ops) = 2.
Proof. repeat split; vm_compute; reflexivity. Qed.

Lemma GetCount_inserted_minus_removed_witness :
  run jitPrimeInfo empty_table example_ops = Ok example_table /\
  GetCount example_table
    = to_unsigned (spec_inserted (spec_run example_ops)
                   - spec_removed (spec_run example_ops)) /\
  (Z.of_nat (length example_ops) < UINT_RANGE ->
   GetCount example_table
     = spec_inserted (spec_run example_ops) - spec_removed (spec_run example_ops)) /\
  GetCount (RemoveAll example_table) = 0.
Proof.
  split; [vm_compute; reflexivity|].
  apply (GetCount_inserted_minus_removed jitPrimeInfo example_ops example_table).
  vm_compute. reflexivity.
Defined.

(** C7, as stated, fails: a new table has a bucket array of length 0, which
    is not in the static table; [RemoveAll] takes the length from 9 back to
    0; and [Reallocate] with a smaller size takes it from 23 to 9. *)
Lemma bucket_count_decreases :
  ~ In (bucket_count (empty_table : JitHashTable Z Z)) (map prime jitPrimeInfo) /\
  reachable jitPrimeInfo example_small /\
  bucket_count example_small = 9 /\
  bucket_count (RemoveAll example_small) = 0 /\
  (let! s := run jitPrimeInfo (empty_table : JitHashTable Z Z) [OpReallocate 20] in
   let! s' := step jitPrimeInfo s (OpReallocate 5) in
   Ok (bucket_count s, bucket_count s')) = Ok (23, 9).
Proof.
  split.
  { vm_compute. intros Hin.
    repeat (destruct Hin as [Hin|Hin]; [discriminate Hin|]). exact Hin. }
  split; [exact example_small_reachable|].
  repeat split; vm_compute; reflexivity.
Qed.

Lemma bucket_count_steps_witness :
  table_spacedb jitPrimeInfo = true /\
  reachable jitPrimeInfo example_small /\
  step jitPrimeInfo example_small (OpSet 3 30 KindNone) = Ok example_grown /\
  (m_table example_small = None /\ bucket_count example_small = 0 \/
   m_tableSizeInfo example_small ∈ jitPrimeInfo) /\
  bucket_count example_small <= bucket_count example_grown.
Proof.
  split; [vm_compute; reflexivity|].
  split; [exists example_small_ops; vm_compute; reflexivity|].
  split; [vm_compute; reflexivity|].
  apply (bucket_count_steps jitPrimeInfo example_small (OpSet 3 30 KindNone)
           example_grown).
  - vm_compute. reflexivity.
  - exists example_small_ops. vm_compute. reflexivity.
  - vm_compute. reflexivity.
Defined.




(** The scenario of C4 evaluated on the 27-entry instance: the first entry
    of at least 7 is 9, so the array gets 9 slots and the threshold is 6;
    six keys go in without further growth, and the seventh grows the array
    to 23 slots. *)
Example jitPrimeInfo_growth :
  (let! s6 := run jitPrimeInfo (empty_table : JitHashTable Z Z)
                [OpSet 1 10 KindNone; OpSet 2 20 KindNone; OpSet 3 30 KindNone;
                 OpSet 4 40 KindNone; OpSet 5 50 KindNone; OpSet 6 60 KindNone] in
   let! s7 := step jitPrimeInfo s6 (OpSet 7 70 KindNone) in
   Ok (bucket_count s6, m_tableMax s6, grow_request (GetCount s6), bucket_count s7))
  = Ok (9, 6, 12, 23).
Proof. vm_compute. reflexivity. Qed.

(** * Further properties of the header *)

Section MoreProperties.

Context {Key Value : Type} `{KeyFuncsLaws Key} `{Behavior}.

Variable tbl : list JitPrimeInfo.

Implicit Types (k x : Key) (v : Value) (n : Node Key Value)
               (s : JitHashTable Key Value) (o : op Key Value).

(** With exact magic numbers [Lookup] returns for every key, and what it
    returns is read off the nodes. *)
Lemma Lookup_total s k (pVal : option Value) :
  forallb magic_okb tbl = true -> well_formed tbl s ->
  Lookup s k pVal = Ok (lookup_result (value_of s k) pVal).
Proof.
  intros Hmagic Hwf. unfold Lookup, value_of, lookup_result.
  rewrite (FindNode_total tbl s k Hmagic Hwf). cbn [bind].
  destruct (find_node k (entries s)); reflexivity.
Qed.

Lemma value_of_congr s k x : Equals k x = true -> value_of s k = value_of s x.
Proof.
  intros Hkx. unfold value_of. f_equal.
  induction (entries s) as [|a c IH]; simpl; [reflexivity|].
  rewrite (Equals_congr_l k x _ Hkx), IH. reflexivity.
Qed.

Lemma refines_contents_of s : refines s (contents_of s).
Proof. split; simpl; [reflexivity | lia]. Qed.

(** A call that returns changes the values held as the spec's contents
    say. *)
Lemma step_value_of s o s' x :
  well_formed tbl s -> step tbl s o = Ok s' ->
  well_formed tbl s' /\
  value_of s' x = spec_value (spec_step (contents_of s) o) x.
Proof.
  intros Hwf Hstep.
  destruct (step_refines tbl s (contents_of s) o s' Hwf (refines_contents_of s) Hstep)
    as [Hwf' [Hv _]].
  split; [exact Hwf' | apply Hv].
Qed.

Lemma step_length s o s' :
  well_formed tbl s -> step tbl s o = Ok s' ->
  Z.of_nat (length (entries s'))
  = spec_inserted (spec_step (contents_of s) o)
    - spec_removed (spec_step (contents_of s) o).
Proof.
  intros Hwf Hstep.
  destruct (step_refines tbl s (contents_of s) o s' Hwf (refines_contents_of s) Hstep)
    as [_ [_ Hn]].
  exact Hn.
Qed.

Lemma value_of_insert s o s' k v x :
  well_formed tbl s -> step tbl s o = Ok s' ->
  spec_step (contents_of s) o = spec_insert (contents_of s) k v true ->
  value_of s' x = if Equals k x then Some v else value_of s x.
Proof.
  intros Hwf Hstep Hspec.
  destruct (step_value_of s o s' x Hwf Hstep) as [_ ->]. rewrite Hspec.
  unfold spec_insert. simpl. destruct (value_of s k); reflexivity.
Qed.

(** ** Set *)

(** X1. [Set] followed by [Lookup]: on a table a program can build, with
    exact magic numbers, a [Set] that returns has stored its value for the
    key, has returned whether the key was in, and has left what [Lookup]
    returns for every other key as it was. *)
Theorem Set_then_Lookup s k v (kind : SetKind) (b : bool) s' (old : Value) :
  forallb magic_okb tbl = true -> reachable tbl s ->
  Set_ tbl s k v kind = Ok (b, s') ->
  b = (match value_of s k with Some _ => true | None => false end) /\
  Lookup s' k (Some old) = Ok (true, Some v) /\
  forall x (pVal : option Value),
    Equals k x = false -> Lookup s' x pVal = Lookup s x pVal.
Proof.
  intros Hmagic Hreach Hset. pose proof (reachable_well_formed tbl s Hreach) as Hwf.
  assert (Hstep : step tbl s (OpSet k v kind) = Ok s')
    by (simpl; rewrite Hset; reflexivity).
  assert (Hval : forall x, value_of s' x = if Equals k x then Some v else value_of s x)
    by (intros x; apply (value_of_insert s _ s' k v x Hwf Hstep); reflexivity).
  destruct (step_value_of s _ s' k Hwf Hstep) as [Hwf' _].
  split; [|split].
  - unfold Set_ in Hset. apply bind_Ok in Hset as ([[s1 index] head] & Hl & Hset).
    destruct (locate_Ok tbl s k s1 index head Hwf Hl)
      as (_ & Hwf1 & Hp & _ & _ & _ & _ & Hfind).
    assert (Hsame : find_node k (entries s) = find_node k head).
    { rewrite Hfind. apply find_node_perm; [apply (well_formed_distinct tbl), Hwf|].
      symmetry. exact Hp. }
    unfold value_of. rewrite Hsame. destruct (find_node k head).
    + apply bind_Ok in Hset as (_ & _ & [= <- _]). reflexivity.
    + injection Hset as <- _. reflexivity.
  - rewrite (Lookup_total s' k _ Hmagic Hwf'), Hval, Equals_refl. reflexivity.
  - intros x pVal Hne.
    rewrite (Lookup_total s' x _ Hmagic Hwf'), (Lookup_total s x _ Hmagic Hwf).
    rewrite Hval, Hne. reflexivity.
Qed.

(** ** Remove *)

Lemma Remove_held s k v0 :
  forallb magic_okb tbl = true -> well_formed tbl s ->
  value_of s k = Some v0 ->
  exists s',
    Remove s k = Ok (true, s') /\
    well_formed tbl s' /\
    (forall pVal : option Value, Lookup s' k pVal = Ok (false, pVal)) /\
    (forall x (pVal : option Value),
       Equals k x = false -> Lookup s' x pVal = Lookup s x pVal) /\
    Z.of_nat (length (entries s')) = Z.of_nat (length (entries s)) - 1 /\
    GetCount s' = to_unsigned (GetCount s - 1) /\
    m_tableSizeInfo s' = m_tableSizeInfo s /\ m_tableMax s' = m_tableMax s.
Proof.
  intros Hmagic Hwf Hin.
  unfold value_of in Hin.
  destruct (find_node k (entries s)) as [n|] eqn:Hfind; [|discriminate].
  assert (Halloc : exists buckets, m_table s = Some buckets).
  { unfold entries in Hfind. destruct (m_table s); [eauto | discriminate]. }
  destruct Halloc as [buckets Ht].
  destruct (GetIndexForKey_exact tbl s k buckets Hmagic Hwf Ht) as (i & head & Hi & Hl & _).
  pose proof (bucket_find tbl s buckets i head k Hwf Ht Hl Hi) as Hb.
  rewrite Hfind in Hb.
  assert (Hrem : Remove s k
                 = Ok (true, set_count (write_bucket s (Z.of_nat i) (unlink k head))
                                       (to_unsigned (m_tableCount s - 1)))).
  { unfold Remove. rewrite Hi. cbn [bind]. unfold read_bucket.
    rewrite Ht, Nat2Z.id, Hl. cbn [bind]. rewrite Hb. reflexivity. }
  eexists. split; [exact Hrem|].
  assert (Hstep : step tbl s (OpRemove k) = Ok
            (set_count (write_bucket s (Z.of_nat i) (unlink k head))
                       (to_unsigned (m_tableCount s - 1))))
    by (simpl; rewrite Hrem; reflexivity).
  set (s' := set_count _ _) in *.
  assert (Hval : forall x, value_of s' x = if Equals k x then None else value_of s x).
  { intros x. destruct (step_value_of s _ s' x Hwf Hstep) as [_ ->].
    simpl. unfold spec_remove. simpl. unfold value_of at 1. rewrite Hfind.
    reflexivity. }
  destruct (step_value_of s _ s' k Hwf Hstep) as [Hwf' _].
  destruct (unlink_Ok tbl s buckets (Z.of_nat i) head k n Hwf Ht ltac:(lia)
              ltac:(rewrite Nat2Z.id; exact Hl) Hb) as [_ Hp].
  fold s' in Hp.
  split; [exact Hwf'|].
  repeat split.
  - intros pVal. rewrite (Lookup_total s' k _ Hmagic Hwf'), Hval, Equals_refl.
    reflexivity.
  - intros x pVal Hne.
    rewrite (Lookup_total s' x _ Hmagic Hwf'), (Lookup_total s x _ Hmagic Hwf).
    rewrite Hval, Hne. reflexivity.
  - rewrite Hp. simpl length. lia.
Qed.

(** X2. [Remove] of a key that is in: the call returns [true]; afterwards
    [Lookup] does not find the key, finds every other key as before, the
    table holds one node less and the counter is one lower; the bucket
    array and the threshold are the same (no shrinking, no rehash). *)
Theorem Remove_present s k v0 :
  forallb magic_okb tbl = true -> reachable tbl s ->
  value_of s k = Some v0 ->
  exists s',
    Remove s k = Ok (true, s') /\
    (forall pVal : option Value, Lookup s' k pVal = Ok (false, pVal)) /\
    (forall x (pVal : option Value),
       Equals k x = false -> Lookup s' x pVal = Lookup s x pVal) /\
    Z.of_nat (length (entries s')) = Z.of_nat (length (entries s)) - 1 /\
    GetCount s' = to_unsigned (GetCount s - 1) /\
    m_tableSizeInfo s' = m_tableSizeInfo s /\ m_tableMax s' = m_tableMax s.
Proof.
  intros Hmagic Hreach Hin.
  destruct (Remove_held s k v0 Hmagic (reachable_well_formed tbl s Hreach) Hin)
    as (s' & Hrem & _ & Hrest).
  exists s'. split; [exact Hrem | exact Hrest].
Qed.

(** X3. Round trip: [Set] of a key that is not in, then [Remove] of that
    key.  The [Remove] returns [true]; afterwards [Lookup] returns for
    every key what it returned before the [Set], and the counter and the
    number of nodes are what they were.  (The bucket array need not be:
    the [Set] may have rehashed.) *)
Theorem Set_then_Remove s k v (kind : SetKind) (b : bool) s1 :
  forallb magic_okb tbl = true -> reachable tbl s ->
  value_of s k = None -> Set_ tbl s k v kind = Ok (b, s1) ->
  exists s2,
    Remove s1 k = Ok (true, s2) /\
    (forall x (pVal : option Value), Lookup s2 x pVal = Lookup s x pVal) /\
    GetCount s2 = GetCount s /\
    length (entries s2) = length (entries s).
Proof.
  intros Hmagic Hreach Habs Hset. pose proof (reachable_well_formed tbl s Hreach) as Hwf.
  assert (Hstep : step tbl s (OpSet k v kind) = Ok s1)
    by (simpl; rewrite Hset; reflexivity).
  assert (Hval : forall x, value_of s1 x = if Equals k x then Some v else value_of s x)
    by (intros x; apply (value_of_insert s _ s1 k v x Hwf Hstep); reflexivity).
  destruct (step_value_of s _ s1 k Hwf Hstep) as [Hwf1 _].
  pose proof (step_length s _ s1 Hwf Hstep) as Hlen1.
  simpl in Hlen1. unfold spec_insert in Hlen1. simpl in Hlen1.
  rewrite Habs in Hlen1. simpl in Hlen1.
  assert (Hin1 : value_of s1 k = Some v) by (rewrite Hval, Equals_refl; reflexivity).
  destruct (Remove_held s1 k v Hmagic Hwf1 Hin1)
    as (s2 & Hrem & Hwf2 & Hgone & Hframe & Hlen2 & _).
  exists s2. split; [exact Hrem|]. split; [|split].
  - intros x pVal. destruct (Equals k x) eqn:Hkx.
    + rewrite (Lookup_total s x _ Hmagic Hwf), (Lookup_total s2 x _ Hmagic Hwf2).
      rewrite <- (value_of_congr s k x Hkx), <- (value_of_congr s2 k x Hkx), Habs.
      pose proof (Hgone None) as Hk. rewrite (Lookup_total s2 k _ Hmagic Hwf2) in Hk.
      destruct (value_of s2 k); [discriminate | reflexivity].
    + rewrite (Hframe x pVal Hkx).
      rewrite (Lookup_total s1 x _ Hmagic Hwf1), (Lookup_total s x _ Hmagic Hwf).
      rewrite Hval, Hkx. reflexivity.
  - unfold GetCount.
    rewrite (well_formed_count tbl s2 Hwf2), (well_formed_count tbl s Hwf).
    f_equal. lia.
  - lia.
Qed.

(** X4. [Remove] of a key that is not in, on a table that has a bucket
    array: the call returns [false] and the table is the same. *)
Theorem Remove_absent s k :
  forallb magic_okb tbl = true -> reachable tbl s ->
  is_Some (m_table s) -> value_of s k = None ->
  Remove s k = Ok (false, s).
Proof.
  intros Hmagic Hreach Halloc Habs.
  apply (Remove_absent_allocated tbl s k Hmagic
           (reachable_well_formed tbl s Hreach) Halloc).
  unfold value_of in Habs. destruct (find_node k (entries s)); [discriminate|].
  reflexivity.
Qed.

(** ** LookupPointerOrAdd, Emplace, LookupPointer, operator[] *)

(** The two paths that keep the value of a key that is in: the value
    returned, the values held afterwards, the number of nodes. *)
Lemma insert_keep_spec s k v o (r : Value) s' :
  forallb magic_okb tbl = true -> well_formed tbl s ->
  spec_step (contents_of s) o = spec_insert (contents_of s) k v false ->
  step tbl s o = Ok s' ->
  (exists (s1 : JitHashTable Key Value) (index : Z) (head : chain Key Value),
      locate tbl s k = Ok (s1, index, head) /\
      Ok (r, s') = match find_node k head with
                   | Some n => Ok (m_val n, s1)
                   | None => Ok (v, link_front s1 index head k v)
                   end) ->
  r = (match value_of s k with Some w => w | None => v end) /\
  value_of s' k = Some r /\
  (forall x, Equals k x = false -> value_of s' x = value_of s x) /\
  Z.of_nat (length (entries s'))
  = Z.of_nat (length (entries s))
    + (match value_of s k with Some _ => 0 | None => 1 end).
Proof.
  intros Hmagic Hwf Hspec Hstep (s1 & index & head & Hl & Hres).
  destruct (locate_Ok tbl s k s1 index head Hwf Hl)
    as (_ & Hwf1 & Hp & _ & _ & _ & _ & Hfind).
  assert (Hsame : find_node k (entries s) = find_node k head).
  { rewrite Hfind. apply find_node_perm; [apply (well_formed_distinct tbl), Hwf|].
    symmetry. exact Hp. }
  assert (Hr : r = (match value_of s k with Some w => w | None => v end)).
  { unfold value_of. rewrite Hsame.
    destruct (find_node k head); injection Hres as -> _; reflexivity. }
  assert (Hval : forall x, value_of s' x
                = spec_value (spec_insert (contents_of s) k v false) x).
  { intros x. destruct (step_value_of s o s' x Hwf Hstep) as [_ ->].
    rewrite Hspec. reflexivity. }
  pose proof (step_length s o s' Hwf Hstep) as Hlen. rewrite Hspec in Hlen.
  unfold spec_insert in Hval, Hlen. simpl in Hval, Hlen.
  split; [exact Hr|]. destruct (value_of s k) as [w|] eqn:Hk.
  - subst r. repeat split.
    + rewrite Hval. simpl. exact Hk.
    + intros x _. rewrite Hval. reflexivity.
    + simpl in Hlen. lia.
  - subst r. repeat split.
    + rewrite Hval. simpl. unfold spec_assign. rewrite Equals_refl. reflexivity.
    + intros x Hne. rewrite Hval. simpl. unfold spec_assign. rewrite Hne. reflexivity.
    + simpl in Hlen. lia.
Qed.

(** X5. [LookupPointerOrAdd] twice: the first call returns the value the
    key had, or the default it has just added; a second call for the same
    key returns that same value whatever its default, and leaves the same
    nodes in the table (its growth check still runs, and may rehash). *)
Theorem LookupPointerOrAdd_twice s k (d : Value) (r : Value) s1 :
  forallb magic_okb tbl = true -> reachable tbl s ->
  LookupPointerOrAdd tbl s k d = Ok (r, s1) ->
  r = (match value_of s k with Some w => w | None => d end) /\
  (forall old : Value, Lookup s1 k (Some old) = Ok (true, Some r)) /\
  forall (d' : Value) s2,
    CheckGrowth tbl s1 = Ok s2 ->
    LookupPointerOrAdd tbl s1 k d' = Ok (r, s2) /\ entries s2 ≡ₚ entries s1.
Proof.
  intros Hmagic Hreach Hadd. pose proof (reachable_well_formed tbl s Hreach) as Hwf.
  assert (Hstep : step tbl s (OpLookupPointerOrAdd k d) = Ok s1)
    by (simpl; rewrite Hadd; reflexivity).
  destruct (step_value_of s _ s1 k Hwf Hstep) as [Hwf1 _].
  assert (Hshape : exists (s0 : JitHashTable Key Value) (index : Z) (head : chain Key Value),
      locate tbl s k = Ok (s0, index, head) /\
      Ok (r, s1) = match find_node k head with
                   | Some n => Ok (m_val n, s0)
                   | None => Ok (d, link_front s0 index head k d)
                   end).
  { unfold LookupPointerOrAdd in Hadd.
    apply bind_Ok in Hadd as ([[s0 index] head] & Hl & Hadd).
    exists s0, index, head. split; [exact Hl|]. rewrite <- Hadd.
    destruct (find_node k head); reflexivity. }
  destruct (insert_keep_spec s k d (OpLookupPointerOrAdd k d) r s1 Hmagic Hwf
              eq_refl Hstep Hshape)
    as (Hr & Hk & _ & _).
  split; [exact Hr|]. split.
  - intros old. rewrite (Lookup_total s1 k _ Hmagic Hwf1), Hk. reflexivity.
  - intros d' s2 Hg.
    destruct (locate_total tbl s1 k s2 Hmagic Hwf1 Hg) as (index & head & Hl).
    destruct (locate_Ok tbl s1 k s2 index head Hwf1 Hl)
      as (_ & Hwf2 & Hp & _ & _ & _ & _ & Hfind).
    split; [|exact Hp].
    assert (Hsame : find_node k head = find_node k (entries s1)).
    { rewrite Hfind. apply find_node_perm; [apply (well_formed_distinct tbl), Hwf2|].
      exact Hp. }
    unfold LookupPointerOrAdd. rewrite Hl. cbn [bind]. rewrite Hsame.
    unfold value_of in Hk. destruct (find_node k (entries s1)) as [n|]; [|discriminate].
    injection Hk as ->. reflexivity.
Qed.

(** X6. [Emplace] does not overwrite: the call returns the value the key
    had, or the one it has just constructed for a key that was not in;
    that value is what [Lookup] finds afterwards; every other key is
    found as before; the table has one node more exactly when the key was
    not in. *)
Theorem Emplace_keeps_existing s k v (r : Value) s' :
  forallb magic_okb tbl = true -> reachable tbl s ->
  Emplace tbl s k v = Ok (r, s') ->
  r = (match value_of s k with Some w => w | None => v end) /\
  (forall old : Value, Lookup s' k (Some old) = Ok (true, Some r)) /\
  (forall x (pVal : option Value),
     Equals k x = false -> Lookup s' x pVal = Lookup s x pVal) /\
  Z.of_nat (length (entries s'))
  = Z.of_nat (length (entries s))
    + (match value_of s k with Some _ => 0 | None => 1 end).
Proof.
  intros Hmagic Hreach Hadd. pose proof (reachable_well_formed tbl s Hreach) as Hwf.
  assert (Hstep : step tbl s (OpEmplace k v) = Ok s')
    by (simpl; rewrite Hadd; reflexivity).
  destruct (step_value_of s _ s' k Hwf Hstep) as [Hwf' _].
  assert (Hshape : exists (s0 : JitHashTable Key Value) (index : Z) (head : chain Key Value),
      locate tbl s k = Ok (s0, index, head) /\
      Ok (r, s') = match find_node k head with
                   | Some n => Ok (m_val n, s0)
                   | None => Ok (v, link_front s0 index head k v)
                   end).
  { unfold Emplace in Hadd.
    apply bind_Ok in Hadd as ([[s0 index] head] & Hl & Hadd).
    exists s0, index, head. split; [exact Hl|]. rewrite <- Hadd.
    destruct (find_node k head); reflexivity. }
  destruct (insert_keep_spec s k v (OpEmplace k v) r s' Hmagic Hwf
              eq_refl Hstep Hshape)
    as (Hr & Hk & Hother & Hlen).
  split; [exact Hr|]. split; [|split; [|exact Hlen]].
  - intros old. rewrite (Lookup_total s' k _ Hmagic Hwf'), Hk. reflexivity.
  - intros x pVal Hne.
    rewrite (Lookup_total s' x _ Hmagic Hwf'), (Lookup_total s x _ Hmagic Hwf).
    rewrite (Hother x Hne). reflexivity.
Qed.

(** X7. [LookupPointer], [operator[]] and [Lookup] agree: the pointer is
    to the value [Lookup] would store, [nullptr] when [Lookup] returns
    [false]; [operator[]] yields that value, and for a key that is not in
    its assertion fails. *)
Theorem subscript_agrees_with_Lookup s k (old : Value) :
  forallb magic_okb tbl = true -> reachable tbl s ->
  LookupPointer s k = Ok (value_of s k) /\
  Lookup s k (Some old) = Ok (lookup_result (value_of s k) (Some old)) /\
  subscript s k = (match value_of s k with
                   | Some v => Ok v
                   | None => Err AssertFailure
                   end).
Proof.
  intros Hmagic Hreach. pose proof (reachable_well_formed tbl s Hreach) as Hwf.
  assert (Hp : LookupPointer s k = Ok (value_of s k)).
  { unfold LookupPointer, value_of. rewrite (FindNode_total tbl s k Hmagic Hwf).
    reflexivity. }
  split; [exact Hp|]. split; [apply Lookup_total; assumption|].
  unfold subscript. rewrite Hp. cbn [bind]. destruct (value_of s k); reflexivity.
Qed.

(** ** The bucket array *)

(** X8. The layout a program can observe is consistent: on every table
    built by calls that return, the bucket array has as many slots as the
    descriptor says, every node sits in the bucket its hash code selects
    under the descriptor in place -- none is left indexed by an earlier
    size -- and no key is held by two nodes. *)
Theorem buckets_consistent s (buckets : list (chain Key Value)) :
  reachable tbl s -> m_table s = Some buckets ->
  m_tableSizeInfo s ∈ tbl /\
  length buckets = Z.to_nat (bucket_count s) /\
  m_tableMax s = density_threshold (bucket_count s) /\
  (forall (i : nat) (head : chain Key Value) n,
     buckets !! i = Some head -> n ∈ head ->
     hash_of (m_key n) mod bucket_count s = Z.of_nat i) /\
  distinct_keys (entries s).
Proof.
  intros Hreach Ht. pose proof (reachable_well_formed tbl s Hreach) as Hwf.
  pose proof (well_formed_distinct tbl s Hwf) as Hd.
  unfold well_formed in Hwf. rewrite Ht in Hwf.
  destruct Hwf as (Hin & Hlen & Hmax & _ & Hidx & _).
  repeat split; try assumption.
  intros i head n Hi Hn. destruct (magicNumberRem_Ok _ _ _ (Hidx i head n Hi Hn)) as [_ Hr].
  symmetry. exact Hr.
Qed.

(** X9. With exact magic numbers [GetIndexForKey] is in bounds on every
    table that has a bucket array: it returns the hash code modulo the
    number of slots, which is a slot of the array. *)
Theorem GetIndexForKey_in_bounds s k :
  forallb magic_okb tbl = true -> reachable tbl s -> is_Some (m_table s) ->
  GetIndexForKey s k = Ok (hash_of k mod bucket_count s) /\
  0 <= hash_of k mod bucket_count s < bucket_count s /\
  exists head, read_bucket (m_table s) (hash_of k mod bucket_count s) = Ok head.
Proof.
  intros Hmagic Hreach [buckets Ht].
  pose proof (reachable_well_formed tbl s Hreach) as Hwf.
  destruct (GetIndexForKey_exact tbl s k buckets Hmagic Hwf Ht) as (i & head & Hi & Hl & Hnz).
  pose proof Hi as Hi'. unfold GetIndexForKey in Hi'.
  destruct (magicNumberRem_Ok _ _ _ Hi') as [_ Hr]. fold (bucket_count s) in Hr.
  rewrite <- Hr. split; [exact Hi|]. split.
  - unfold well_formed in Hwf. rewrite Ht in Hwf. destruct Hwf as (_ & Hlen & _).
    apply lookup_lt_Some in Hl. unfold bucket_count. lia.
  - exists head. unfold read_bucket. rewrite Ht, Nat2Z.id, Hl. reflexivity.
Qed.

(** ** Growth *)

Lemma insertion_growth_check s o s' :
  is_insertion o = true -> step tbl s o = Ok s' ->
  exists s1, CheckGrowth tbl s = Ok s1 /\
    m_tableSizeInfo s' = m_tableSizeInfo s1 /\ m_tableMax s' = m_tableMax s1.
Proof.
  intros Hins Hstep.
  assert (Hloc : exists (k : Key) (s1 : JitHashTable Key Value) (index : Z)
                   (head : chain Key Value),
             locate tbl s k = Ok (s1, index, head) /\
             m_tableSizeInfo s' = m_tableSizeInfo s1 /\ m_tableMax s' = m_tableMax s1).
  { destruct o as [k v kind|k d|k v|k| |n|k]; try discriminate; simpl in Hstep;
      apply bind_Ok in Hstep as ([b r] & Hcall & [= <-]).
    - unfold Set_ in Hcall. apply bind_Ok in Hcall as ([[s1 index] head] & Hl & Hcall).
      exists k, s1, index, head. split; [exact Hl|].
      destruct (find_node k head).
      + apply bind_Ok in Hcall as (_ & _ & [= _ <-]). split; reflexivity.
      + injection Hcall as _ <-. split; reflexivity.
    - unfold LookupPointerOrAdd in Hcall.
      apply bind_Ok in Hcall as ([[s1 index] head] & Hl & Hcall).
      exists k, s1, index, head. split; [exact Hl|].
      destruct (find_node k head); injection Hcall as _ <-; split; reflexivity.
    - unfold Emplace in Hcall.
      apply bind_Ok in Hcall as ([[s1 index] head] & Hl & Hcall).
      exists k, s1, index, head. split; [exact Hl|].
      destruct (find_node k head); injection Hcall as _ <-; split; reflexivity. }
  destruct Hloc as (k & s1 & index & head & Hl & Hsi & Hmax).
  exists s1. split; [|split; assumption].
  unfold locate in Hl. apply bind_Ok in Hl as (s1' & Hg & Hl).
  apply bind_Ok in Hl as (_ & _ & Hl). apply bind_Ok in Hl as (? & _ & Hl).
  apply bind_Ok in Hl as (? & _ & [= -> _ _]). exact Hg.
Qed.

Lemma Grow_unfold s :
  Grow tbl s = if grow_size (m_tableCount s) <? m_tableCount s then Err NoMemory
               else Reallocate tbl s (grow_size (m_tableCount s)).
Proof.
  unfold Grow, grow_size.
  destruct (Z.ltb_spec (grow_request (m_tableCount s)) s_minimum_allocation).
  - rewrite Z.max_r by lia. reflexivity.
  - rewrite Z.max_l by lia. reflexivity.
Qed.

(** X10. An insertion ([Set], [LookupPointerOrAdd], [Emplace]) rehashes
    exactly when the count is at the threshold.  Below the threshold the
    descriptor and the threshold stay as they are.  At the threshold the
    call that returns has installed the entry [NextPrime] gives for the
    size [Grow] asks for (its request, at least the minimum allocation),
    with the threshold of that entry, and the array has at least as many
    slots as there were keys. *)
Theorem insertion_grows_at_threshold s o s' :
  reachable tbl s -> is_insertion o = true -> step tbl s o = Ok s' ->
  if m_tableCount s =? m_tableMax s
  then NextPrime tbl (grow_size (GetCount s)) = Ok (m_tableSizeInfo s') /\
       m_tableMax s' = density_threshold (bucket_count s') /\
       GetCount s <= bucket_count s'
  else m_tableSizeInfo s' = m_tableSizeInfo s /\ m_tableMax s' = m_tableMax s.
Proof.
  intros Hreach Hins Hstep. pose proof (reachable_well_formed tbl s Hreach) as Hwf.
  destruct (insertion_growth_check s o s' Hins Hstep) as (s1 & Hg & Hsi & Hmax).
  unfold CheckGrowth in Hg. unfold bucket_count, GetCount.
  destruct (m_tableCount s =? m_tableMax s).
  - rewrite Grow_unfold in Hg.
    destruct (Z.ltb_spec (grow_size (m_tableCount s)) (m_tableCount s)); [discriminate|].
    destruct (Reallocate_Ok tbl s _ s1 Hwf Hg) as (_ & _ & _ & Hq & Hmax1 & _).
    rewrite Hsi, Hmax. split; [exact Hq|]. split; [exact Hmax1|].
    apply NextPrime_from_Ok in Hq as [_ Hle]. lia.
  - injection Hg as <-. split; assumption.
Qed.

Lemma NextPrime_from_Err (l : list JitPrimeInfo) (number : Z) :
  Forall (fun b => prime b < number) l -> NextPrime_from l number = Err NoMemory.
Proof.
  induction 1 as [|a l Ha _ IH]; simpl; [reflexivity|].
  destruct (Z.leb_spec number (prime a)); [lia | exact IH].
Qed.



(** ** What the calls never do *)





(** ** The order of the nodes *)

(** X13. [Remove] takes one node out and leaves every other node where
    it was.  A [Remove] that returned [true] has unlinked one node, whose
    key equals the argument, from the chain of the bucket
    [GetIndexForKey] gives for the key; the nodes before and after it in
    that chain keep their order, every other bucket is the same chain as
    before, and the bucket array has the same length and descriptor.  So
    an iteration afterwards visits the nodes it visited before, in the
    same order, without the node of the key. *)
Theorem Remove_keeps_order s k s' :
  reachable tbl s -> Remove s k = Ok (true, s') ->
  exists (buckets buckets' : list (chain Key Value)) (i : nat)
         (c1 : chain Key Value) n (c2 : chain Key Value),
    m_table s = Some buckets /\ m_table s' = Some buckets' /\
    GetIndexForKey s k = Ok (Z.of_nat i) /\
    buckets !! i = Some (c1 ++ n :: c2) /\
    buckets' !! i = Some (c1 ++ c2) /\
    (forall j : nat, j <> i -> buckets' !! j = buckets !! j) /\
    length buckets' = length buckets /\
    m_tableSizeInfo s' = m_tableSizeInfo s /\
    Equals k (m_key n) = true /\
    exists l1 l2, entries s = l1 ++ n :: l2 /\ entries s' = l1 ++ l2.
Proof.
  intros Hreach Hrem. pose proof (reachable_well_formed tbl s Hreach) as Hwf.
  unfold Remove in Hrem. apply bind_Ok in Hrem as (index & Hi & Hrem).
  apply bind_Ok in Hrem as (head & Hread & Hrem).
  destruct (read_bucket_Ok _ _ _ Hread) as (buckets & Ht & Hl).
  destruct (find_node k head) as [n|] eqn:Hf; [|discriminate].
  injection Hrem as <-.
  pose proof (magicNumberRem_nonneg _ _ _ Hi) as Hnn.
  destruct (find_node_split k head n Hf) as (c1 & c2 & Hhead & _ & Hunlink).
  destruct (well_formed_write tbl s buckets index head (unlink k head)
              (to_unsigned (m_tableCount s - 1)) Hwf Ht Hnn Hl)
    as (before & after & He & He' & _).
  exists buckets, (<[Z.to_nat index := unlink k head]> buckets), (Z.to_nat index),
         c1, n, c2.
  split; [exact Ht|]. split; [simpl; rewrite Ht; reflexivity|].
  split; [rewrite Z2Nat.id by exact Hnn; exact Hi|].
  split; [rewrite <- Hhead; exact Hl|].
  split; [rewrite <- Hunlink; apply list_lookup_insert_eq, (lookup_lt_Some _ _ _ Hl)|].
  split; [intros j Hj; apply list_lookup_insert_ne; congruence|].
  split; [apply length_insert|]. split; [reflexivity|].
  split; [apply (find_node_Some _ _ _ Hf)|].
  exists (before ++ c1), (c2 ++ after). split.
  - rewrite He, Hhead, <- !app_assoc. reflexivity.
  - rewrite He', Hunlink, <- !app_assoc. reflexivity.
Qed.

(** X14. [Set] on a key that is in replaces the value in place: the node
    keeps its position and its own key object (the one first inserted,
    not the argument that compared equal to it), and no other node is
    touched.  The order is that of the table after the growth check,
    which [Set] runs before it looks for the key. *)
Theorem Set_overwrites_in_place s k v (kind : SetKind) s' :
  reachable tbl s -> Set_ tbl s k v kind = Ok (true, s') ->
  kind = Overwrite /\
  exists s1 l1 n l2,
    CheckGrowth tbl s = Ok s1 /\
    entries s1 = l1 ++ n :: l2 /\
    entries s' = l1 ++ mkNode (m_key n) v :: l2 /\
    Equals k (m_key n) = true /\
    GetCount s' = GetCount s.
Proof.
  intros Hreach Hset. pose proof (reachable_well_formed tbl s Hreach) as Hwf.
  unfold Set_ in Hset. apply bind_Ok in Hset as ([[s1 index] head] & Hl & Hset).
  destruct (locate_Ok tbl s k s1 index head Hwf Hl)
    as (Hg & Hwf1 & _ & Hcnt & Hnn & _ & (buckets & Ht & Hlook) & _).
  destruct (find_node k head) as [n|] eqn:Hf; [|discriminate].
  apply bind_Ok in Hset as (u & Hassert & [= <-]). apply assert_Ok in Hassert.
  split; [destruct kind; [discriminate | reflexivity]|].
  destruct (find_node_split k head n Hf) as (c1 & c2 & Hhead & Hstore & _).
  destruct (well_formed_write tbl s1 buckets index head (store_val k v head)
              (m_tableCount s1) Hwf1 Ht Hnn Hlook)
    as (before & after & He & He' & _).
  exists s1, (before ++ c1), n, (c2 ++ after). split; [exact Hg|]. split; [|split; [|split]].
  - rewrite He, Hhead, <- !app_assoc. reflexivity.
  - change (entries (write_bucket s1 index (store_val k v head)))
      with (entries (set_count (write_bucket s1 index (store_val k v head))
                               (m_tableCount s1))).
    rewrite He', Hstore, <- !app_assoc. reflexivity.
  - apply (find_node_Some _ _ _ Hf).
  - unfold GetCount. simpl. exact Hcnt.
Qed.

End MoreProperties.

(** ** NextPrime *)

(** X15. [NextPrime] returns the first entry of the table whose prime is at
    least the number asked for -- every entry before it is smaller, and in
    an ascending table no entry that is large enough is smaller than it --
    and calls [NoMemory] exactly when every entry is smaller than the
    number. *)
Theorem NextPrime_outcome (tbl : list JitPrimeInfo) (number : Z) :
  match NextPrime tbl number with
  | Ok q =>
      number <= prime q /\
      (exists before after,
         tbl = before ++ q :: after /\ Forall (fun b => prime b < number) before) /\
      (ascendingb tbl = true ->
       Forall (fun b => number <= prime b -> prime q <= prime b) tbl)
  | Err e => e = NoMemory /\ Forall (fun b => prime b < number) tbl
  end.
Proof.
  destruct (NextPrime tbl number) as [q|e] eqn:Hq.
  - split; [apply (NextPrime_from_Ok tbl number q Hq)|]. split.
    + unfold NextPrime in Hq. induction tbl as [|a l IH]; simpl in Hq; [discriminate|].
      destruct (Z.leb_spec number (prime a)).
      * injection Hq as <-. exists [], l. split; [reflexivity | constructor].
      * destruct (IH Hq) as (before & after & -> & Hall).
        exists (a :: before), after. split; [reflexivity|]. constructor; assumption.
    + intros Hasc. exact (NextPrime_from_smallest tbl number q Hasc Hq).
  - unfold NextPrime in Hq. induction tbl as [|a l IH]; simpl in Hq.
    + injection Hq as <-. split; [reflexivity | constructor].
    + destruct (Z.leb_spec number (prime a)); [discriminate|].
      destruct (IH Hq) as [He Hall]. split; [exact He|]. constructor; assumption.
Qed.

(** ** The default behaviour: growth by 3/2, density 3/4, at least 7 slots *)

Section DefaultBehavior.

Context {Key Value : Type} `{KeyFuncsLaws Key}.

Variable tbl : list JitPrimeInfo.

(** The size [Grow] asks for leaves room: in an array of at least that
    many slots the threshold is above the count. *)
Lemma grow_headroom (c q : Z) :
  0 <= c < UINT_RANGE -> c <= grow_size c -> grow_size c <= q ->
  q * 3 < UINT_RANGE -> c < density_threshold q.
Proof.
  intros Hc Hle Hq Hroom.
  assert (Hq7 : 7 <= q).
  { etransitivity; [|exact Hq]. unfold grow_size. apply Z.le_max_r. }
  assert (Hc3 : c * 3 < UINT_RANGE) by lia.
  unfold density_threshold. cbn [s_density_factor_numerator s_density_factor_denominator
                                 JitHashTableBehavior].
  rewrite (to_unsigned_small (q * 3)) by (unfold is_unsigned; lia).
  revert Hle Hq. unfold grow_size, grow_request.
  cbn [s_growth_factor_numerator s_growth_factor_denominator s_minimum_allocation
       s_density_factor_numerator s_density_factor_denominator JitHashTableBehavior].
  rewrite (to_unsigned_small (c * 3)) by (unfold is_unsigned; lia).
  unfold to_unsigned, UINT_RANGE in *. change (2 ^ 32) with 4294967296 in *.
  intros Hle Hq. Z.div_mod_to_equations. lia.
Qed.

Lemma table_roomyb_spec (q : JitPrimeInfo) :
  table_roomyb tbl = true -> q ∈ tbl -> 0 <= prime q /\ prime q * 3 < UINT_RANGE.
Proof.
  unfold table_roomyb. rewrite forallb_forall. intros Hall Hin.
  specialize (Hall q (proj1 (list_elem_of_In _ _) Hin)).
  apply andb_prop in Hall as [Hnonneg Hprod]. simpl in Hprod. lia.
Qed.

Lemma density_threshold_range (size : Z) : 0 <= density_threshold size < UINT_RANGE.
Proof.
  unfold density_threshold. simpl.
  pose proof (to_unsigned_range (size * 3)) as Hr. unfold is_unsigned, UINT_RANGE in *.
  Z.div_mod_to_equations. lia.
Qed.

Lemma CheckGrowth_headroom (s s1 : JitHashTable Key Value) :
  table_roomyb tbl = true -> well_formed tbl s -> within_threshold s ->
  CheckGrowth tbl s = Ok s1 ->
  Z.of_nat (length (entries s)) < m_tableMax s1 < UINT_RANGE.
Proof.
  intros Hroomy Hwf [Hle Hmax] Hg.
  pose proof (well_formed_count tbl s Hwf) as Hcnt.
  rewrite to_unsigned_small in Hcnt by (unfold is_unsigned; lia).
  unfold CheckGrowth in Hg.
  destruct (Z.eqb_spec (m_tableCount s) (m_tableMax s)) as [Heq|Hne].
  - rewrite Grow_unfold in Hg.
    destruct (Z.ltb_spec (grow_size (m_tableCount s)) (m_tableCount s)); [discriminate|].
    destruct (Reallocate_Ok tbl s _ s1 Hwf Hg) as (_ & _ & _ & Hq & Hmax1 & _).
    apply NextPrime_from_Ok in Hq as [Hin Hge].
    destruct (table_roomyb_spec _ Hroomy Hin) as [_ Hroom].
    rewrite Hmax1. split; [|apply density_threshold_range].
    rewrite <- Hcnt. apply grow_headroom; try assumption. lia.
  - injection Hg as <-. lia.
Qed.

Lemma step_within_threshold (s : JitHashTable Key Value) o s' :
  table_roomyb tbl = true -> well_formed tbl s -> within_threshold s ->
  is_Reallocate o = false -> step tbl s o = Ok s' -> within_threshold s'.
Proof.
  intros Hroomy Hwf Hin Hnot Hstep.
  pose proof (step_length tbl s o s' Hwf Hstep) as Hlen.
  destruct (is_insertion o) eqn:Hins.
  - destruct (insertion_growth_check tbl s o s' Hins Hstep) as (s1 & Hg & _ & Hmax).
    pose proof (CheckGrowth_headroom s s1 Hroomy Hwf Hin Hg) as Hroom.
    destruct (spec_step_counts (contents_of s) o) as [Hr Hi]; [simpl; lia..|].
    assert (Hrem : spec_removed (spec_step (contents_of s) o) = 0).
    { destruct o as [k v kind|k d|k v|k| |n|k]; try discriminate; simpl;
        unfold spec_insert; destruct (spec_value (contents_of s) k); reflexivity. }
    simpl in Hi. unfold within_threshold. rewrite Hmax. lia.
  - destruct Hin as [Hle Hmax]. unfold within_threshold.
    destruct o as [k v kind|k d|k v|k| |n|k]; try discriminate.
    + simpl in Hstep. apply bind_Ok in Hstep as ([b r] & Hrem & [= <-]).
      assert (Hsame : m_tableMax r = m_tableMax s).
      { unfold Remove in Hrem. apply bind_Ok in Hrem as (i & _ & Hrem).
        apply bind_Ok in Hrem as (head & _ & Hrem).
        destruct (find_node k head); injection Hrem as _ <-; reflexivity. }
      rewrite Hsame. simpl in Hlen. unfold spec_remove in Hlen.
      destruct (spec_value (contents_of s) k); simpl in Hlen; lia.
    + injection Hstep as <-. simpl. unfold UINT_RANGE. lia.
    + simpl in Hstep. apply bind_Ok in Hstep as (? & _ & [= <-]). lia.
Qed.

Lemma run_within_threshold (ops : list (op Key Value)) :
  table_roomyb tbl = true -> forallb (fun o => negb (is_Reallocate o)) ops = true ->
  forall s s', well_formed tbl s -> within_threshold s -> run tbl s ops = Ok s' ->
               within_threshold s'.
Proof.
  intros Hroomy. induction ops as [|o ops IH]; simpl; intros Hops s s' Hwf Hin Hrun.
  - injection Hrun as <-. exact Hin.
  - apply andb_prop in Hops as [Ho Hops]. apply negb_true_iff in Ho.
    apply bind_Ok in Hrun as (s1 & Hstep & Hrun).
    destruct (step_refines tbl s (contents_of s) o s1 Hwf (refines_contents_of s) Hstep)
      as [Hwf1 _].
    exact (IH Hops s1 s' Hwf1 (step_within_threshold s o s1 Hroomy Hwf Hin Ho Hstep) Hrun).
Qed.

(** X16. The density bound.  With the default behaviour, on a table built
    from the constructor by calls that return and are not [Reallocate],
    the count never exceeds the threshold of the bucket array in place --
    three quarters of its slots, rounded down -- and [GetCount] is exactly
    the number of nodes, however long the sequence of calls.  (The
    entries of the prime table are taken small enough for three times a
    prime not to wrap.) *)
Theorem count_within_threshold (ops : list (op Key Value)) (s : JitHashTable Key Value) :
  table_roomyb tbl = true ->
  forallb (fun o => negb (is_Reallocate o)) ops = true ->
  run tbl empty_table ops = Ok s ->
  GetCount s <= m_tableMax s /\
  m_tableMax s = density_threshold (bucket_count s) /\
  GetCount s = Z.of_nat (length (entries s)) /\
  GetCount s = spec_inserted (spec_run ops) - spec_removed (spec_run ops).
Proof.
  intros Hroomy Hops Hrun.
  destruct (run_from_empty tbl ops s Hrun) as [Hwf [_ Hn]].
  assert (Hin : within_threshold s).
  { apply (run_within_threshold ops Hroomy Hops empty_table s); try assumption.
    - apply well_formed_empty.
    - unfold within_threshold, UINT_RANGE. simpl. lia. }
  destruct Hin as [Hle Hmax].
  pose proof (well_formed_count tbl s Hwf) as Hcnt.
  rewrite to_unsigned_small in Hcnt by (unfold is_unsigned; lia).
  unfold GetCount. rewrite Hcnt. repeat split; try assumption.
  unfold well_formed, bucket_count in *. destruct (m_table s).
  - destruct Hwf as (_ & _ & Hm & _). exact Hm.
  - destruct Hwf as (-> & _ & ->). reflexivity.
Qed.

Lemma Grow_NoMemory (s : JitHashTable Key Value) :
  well_formed tbl s ->
  grow_size (GetCount s) < GetCount s \/
  Forall (fun b => prime b < grow_size (GetCount s)) tbl ->
  Grow tbl s = Err NoMemory.
Proof.
  intros Hwf Hcase. rewrite Grow_unfold. unfold GetCount in Hcase.
  destruct (Z.ltb_spec (grow_size (m_tableCount s)) (m_tableCount s)) as [|Hge];
    [reflexivity|].
  destruct Hcase as [Hlt|Hall]; [lia|].
  unfold Reallocate.
  assert (Hassert : (to_unsigned (GetCount s * s_density_factor_denominator)
                       / s_density_factor_numerator
                     <=? grow_size (m_tableCount s)) = true).
  { apply Z.leb_le. unfold GetCount.
    pose proof (well_formed_count tbl s Hwf) as Hcnt.
    pose proof (to_unsigned_range (Z.of_nat (length (entries s)))) as Hr.
    rewrite <- Hcnt in Hr. unfold is_unsigned, UINT_RANGE in Hr.
    revert Hge. generalize (m_tableCount s) Hr. clear. intros c Hc.
    unfold grow_size, grow_request, to_unsigned, UINT_RANGE. simpl.
    change (2 ^ 32) with 4294967296. intros Hge.
    Z.div_mod_to_equations. lia. }
  rewrite Hassert. cbn [assert bind].
  unfold NextPrime. rewrite (NextPrime_from_Err _ _ Hall). reflexivity.
Qed.

(** X17. Running out of primes.  With the default behaviour, an insertion
    ([Set], [LookupPointerOrAdd], [Emplace]) on a table whose count is at
    the threshold calls [NoMemory] -- before looking for the key, and so
    also when the key is in -- if the size [Grow] computes has wrapped
    below the count, or if every stored prime is smaller than it. *)
Theorem insertion_NoMemory (s : JitHashTable Key Value) (o : op Key Value) :
  reachable tbl s -> is_insertion o = true ->
  GetCount s = m_tableMax s ->
  grow_size (GetCount s) < GetCount s \/
  Forall (fun b => prime b < grow_size (GetCount s)) tbl ->
  step tbl s o = Err NoMemory.
Proof.
  intros Hreach Hins Hfull Hcase.
  pose proof (reachable_well_formed tbl s Hreach) as Hwf.
  assert (Hl : forall k, locate tbl s k = Err NoMemory).
  { intros k. unfold locate, CheckGrowth. unfold GetCount in Hfull.
    rewrite Hfull, Z.eqb_refl.
    rewrite (Grow_NoMemory s Hwf Hcase). reflexivity. }
  destruct o as [k v kind|k d|k v|k| |n|k]; try discriminate; simpl.
  - unfold Set_. rewrite Hl. reflexivity.
  - unfold LookupPointerOrAdd. rewrite Hl. reflexivity.
  - unfold Emplace. rewrite Hl. reflexivity.
Qed.

End DefaultBehavior.

(** An explicit [Reallocate] is not bound by the density: with seven keys
    in, [Reallocate (9)] passes its assertion (7 * 4 / 3 = 9) and installs
    nine slots, whose threshold is 6. *)
Example Reallocate_below_density :
  (let! s := run jitPrimeInfo empty_table seven_keys_then_Reallocate in
   Ok (GetCount s, bucket_count s, m_tableMax s)) = Ok (7, 9, 6).
Proof. vm_compute. reflexivity. Qed.

(** ** Iteration *)

(** X18. Advancing the end iterator has no effect: [Next] on [end()]
    returns the same cursor, on any table, and the cursor still compares
    equal to [end()]. *)
Theorem Next_at_end {Key Value : Type} (s : JitHashTable Key Value) :
  exists e,
    NodeIterator_new s false = Ok e /\
    Next e = Ok e /\
    iterator_neq e e = false /\
    forall fuel : nat, for_range fuel e e = Ok (Some []).
Proof.
  eexists. split; [reflexivity|]. simpl. split; [|split].
  - unfold Next, settle. cbn [it_node it_table it_tableSize it_index].
    rewrite Z.sub_diag. change (Z.to_nat 0) with O. cbn [skip_empty bind].
    rewrite Z.ltb_irrefl.
    reflexivity.
  - reflexivity.
  - intros fuel. destruct fuel; reflexivity.
Qed.

(** ** Key functions *)

(** X19. [JitPtrKeyFuncs]: the hash code of a pointer is its low 32 bits.
    Two different addresses less than 4 GiB apart have different hash
    codes, and two addresses a multiple of 4 GiB apart have the same. *)
Theorem JitPtrKeyFuncs_hash (p q : Z) :
  (p <> q -> Z.abs (p - q) < UINT_RANGE ->
   JitPtrKeyFuncs_GetHashCode p <> JitPtrKeyFuncs_GetHashCode q) /\
  (forall n : Z, JitPtrKeyFuncs_GetHashCode (p + n * UINT_RANGE)
                 = JitPtrKeyFuncs_GetHashCode p) /\
  0 <= JitPtrKeyFuncs_GetHashCode p < UINT_RANGE.
Proof.
  unfold JitPtrKeyFuncs_GetHashCode, to_unsigned, UINT_RANGE.
  change (2 ^ 32) with 4294967296. split; [|split].
  - intros Hne Hclose Heq. Z.div_mod_to_equations. lia.
  - intros n. apply Z_mod_plus_full.
  - apply Z.mod_pos_bound. lia.
Qed.

Lemma lxor_unsigned (a b : Z) :
  0 <= a < UINT_RANGE -> 0 <= b < UINT_RANGE -> 0 <= Z.lxor a b < UINT_RANGE.
Proof.
  unfold UINT_RANGE. intros Ha Hb.
  assert (H0 : 0 <= Z.lxor a b) by (apply Z.lxor_nonneg; lia).
  split; [exact H0|].
  destruct (Z.eq_dec (Z.lxor a b) 0) as [->|Hnz]; [lia|].
  apply Z.log2_lt_pow2; [lia|].
  pose proof (Z.log2_lxor a b ltac:(lia) ltac:(lia)) as Hl.
  assert (Hla : Z.log2 a < 32).
  { destruct (Z.eq_dec a 0) as [->|]; [simpl; lia|]. apply Z.log2_lt_pow2; lia. }
  assert (Hlb : Z.log2 b < 32).
  { destruct (Z.eq_dec b 0) as [->|]; [simpl; lia|]. apply Z.log2_lt_pow2; lia. }
  lia.
Qed.

(** X20. [JitLargePrimitiveKeyFuncs]: for an 8-byte key the hash code is
    the exclusive or of the two 32-bit halves of its bits, in the range of
    [unsigned] -- so two keys with the halves exchanged collide; for a
    4-byte key it is the 32 bits themselves. *)
Theorem JitLargePrimitiveKeyFuncs_hash (hi lo : Z) :
  0 <= hi < UINT_RANGE -> 0 <= lo < UINT_RANGE ->
  JitLargePrimitiveKeyFuncs_GetHashCode 8 (hi * UINT_RANGE + lo) = Ok (Z.lxor hi lo) /\
  JitLargePrimitiveKeyFuncs_GetHashCode 8 (lo * UINT_RANGE + hi) = Ok (Z.lxor hi lo) /\
  0 <= Z.lxor hi lo < UINT_RANGE /\
  JitLargePrimitiveKeyFuncs_GetHashCode 4 lo = Ok lo.
Proof.
  intros Hhi Hlo.
  assert (Hhalf : forall a b, 0 <= a < UINT_RANGE -> 0 <= b < UINT_RANGE ->
            JitLargePrimitiveKeyFuncs_GetHashCode 8 (a * UINT_RANGE + b)
            = Ok (Z.lxor a b)).
  { intros a b Ha Hb. unfold JitLargePrimitiveKeyFuncs_GetHashCode. simpl Z.eqb.
    cbv beta iota zeta.
    pose proof (lxor_unsigned a b Ha Hb) as Hx.
    unfold UINT_RANGE in *.
    rewrite (Z.mod_small (a * 2 ^ 32 + b)) by (change (2 ^ 64) with (2 ^ 32 * 2 ^ 32); nia).
    rewrite Z.shiftr_div_pow2 by lia.
    change 0xFFFFFFFF with (Z.ones 32). rewrite Z.land_ones by lia.
    rewrite Z.div_add_l by lia. rewrite (Z.div_small b) by lia. rewrite Z.add_0_r.
    rewrite Z.add_comm, Z_mod_plus_full, (Z.mod_small b) by lia.
    rewrite (to_unsigned_small a), (to_unsigned_small b) by (unfold is_unsigned, UINT_RANGE; lia).
    rewrite to_unsigned_small by (unfold is_unsigned, UINT_RANGE; lia).
    reflexivity. }
  split; [apply Hhalf; assumption|]. split.
  - rewrite Z.lxor_comm. apply Hhalf; assumption.
  - split; [apply lxor_unsigned; assumption|].
    unfold JitLargePrimitiveKeyFuncs_GetHashCode. simpl Z.eqb. cbv beta iota zeta.
    fold UINT_RANGE. fold (to_unsigned lo).
    rewrite (to_unsigned_small lo) by (unfold is_unsigned; lia).
    rewrite (to_unsigned_small lo) by (unfold is_unsigned; lia). reflexivity.
Qed.

(** ** The properties above at concrete tables *)

Lemma jitPrimeInfo_magic : forallb magic_okb jitPrimeInfo = true.
Proof. vm_compute. reflexivity. Qed.

Lemma six_keys_reachable : reachable jitPrimeInfo six_keys_table.
Proof. exists six_keys_ops. vm_compute. reflexivity. Qed.

Lemma Set_then_Lookup_witness :
  forallb magic_okb jitPrimeInfo = true /\
  reachable jitPrimeInfo example_small /\
  Set_ jitPrimeInfo example_small 3 30 KindNone = Ok (false, example_grown) /\
  false = (match value_of example_small 3 with Some _ => true | None => false end) /\
  Lookup example_grown 3 (Some 0) = Ok (true, Some 30) /\
  forall (x : Z) (pVal : option Z),
    Equals 3 x = false -> Lookup example_grown x pVal = Lookup example_small x pVal.
Proof.
  split; [vm_compute; reflexivity|].
  split; [exists example_small_ops; vm_compute; reflexivity|].
  split; [vm_compute; reflexivity|].
  refine (Set_then_Lookup jitPrimeInfo example_small 3 30 KindNone false example_grown 0 _ _ _).
  - vm_compute. reflexivity.
  - exists example_small_ops. vm_compute. reflexivity.
  - vm_compute. reflexivity.
Defined.

Lemma Remove_present_witness :
  forallb magic_okb jitPrimeInfo = true /\
  reachable jitPrimeInfo example_small /\
  value_of example_small 1 = Some 10 /\
  exists s',
    Remove example_small 1 = Ok (true, s') /\
    (forall pVal : option Z, Lookup s' 1 pVal = Ok (false, pVal)) /\
    (forall (x : Z) (pVal : option Z),
       Equals 1 x = false -> Lookup s' x pVal = Lookup example_small x pVal) /\
    Z.of_nat (length (entries s')) = Z.of_nat (length (entries example_small)) - 1 /\
    GetCount s' = to_unsigned (GetCount example_small - 1) /\
    m_tableSizeInfo s' = m_tableSizeInfo example_small /\
    m_tableMax s' = m_tableMax example_small.
Proof.
  split; [vm_compute; reflexivity|].
  split; [exists example_small_ops; vm_compute; reflexivity|].
  split; [vm_compute; reflexivity|].
  refine (Remove_present jitPrimeInfo example_small 1 10 _ _ _).
  - vm_compute. reflexivity.
  - exists example_small_ops. vm_compute. reflexivity.
  - vm_compute. reflexivity.
Defined.

Lemma Set_then_Remove_witness :
  forallb magic_okb jitPrimeInfo = true /\
  reachable jitPrimeInfo example_small /\
  value_of example_small 3 = None /\
  Set_ jitPrimeInfo example_small 3 30 KindNone = Ok (false, example_grown) /\
  exists s2,
    Remove example_grown 3 = Ok (true, s2) /\
    (forall (x : Z) (pVal : option Z), Lookup s2 x pVal = Lookup example_small x pVal) /\
    GetCount s2 = GetCount example_small /\
    length (entries s2) = length (entries example_small).
Proof.
  split; [vm_compute; reflexivity|].
  split; [exists example_small_ops; vm_compute; reflexivity|].
  split; [vm_compute; reflexivity|].
  split; [vm_compute; reflexivity|].
  refine (Set_then_Remove jitPrimeInfo example_small 3 30 KindNone false example_grown _ _ _ _).
  - vm_compute. reflexivity.
  - exists example_small_ops. vm_compute. reflexivity.
  - vm_compute. reflexivity.
  - vm_compute. reflexivity.
Defined.

Lemma Remove_absent_witness :
  forallb magic_okb jitPrimeInfo = true /\
  reachable jitPrimeInfo example_small /\
  m_table example_small = Some example_small_buckets /\
  value_of example_small 5 = None /\
  Remove example_small 5 = Ok (false, example_small).
Proof.
  split; [vm_compute; reflexivity|].
  split; [exists example_small_ops; vm_compute; reflexivity|].
  split; [reflexivity|].
  split; [vm_compute; reflexivity|].
  refine (Remove_absent jitPrimeInfo example_small 5 _ _ _ _).
  - vm_compute. reflexivity.
  - exists example_small_ops. vm_compute. reflexivity.
  - exists example_small_buckets. reflexivity.
  - vm_compute. reflexivity.
Defined.

Lemma LookupPointerOrAdd_twice_witness :
  forallb magic_okb jitPrimeInfo = true /\
  reachable jitPrimeInfo example_small /\
  LookupPointerOrAdd jitPrimeInfo example_small 3 30 = Ok (30, example_grown) /\
  30 = (match value_of example_small 3 with Some w => w | None => 30 end) /\
  (forall old : Z, Lookup example_grown 3 (Some old) = Ok (true, Some 30)) /\
  forall (d' : Z) s2,
    CheckGrowth jitPrimeInfo example_grown = Ok s2 ->
    LookupPointerOrAdd jitPrimeInfo example_grown 3 d' = Ok (30, s2) /\
    entries s2 ≡ₚ entries example_grown.
Proof.
  split; [vm_compute; reflexivity|].
  split; [exists example_small_ops; vm_compute; reflexivity|].
  split; [vm_compute; reflexivity|].
  refine (LookupPointerOrAdd_twice jitPrimeInfo example_small 3 30 30 example_grown _ _ _).
  - vm_compute. reflexivity.
  - exists example_small_ops. vm_compute. reflexivity.
  - vm_compute. reflexivity.
Defined.

Lemma Emplace_keeps_existing_witness :
  forallb magic_okb jitPrimeInfo = true /\
  reachable jitPrimeInfo example_small /\
  Emplace jitPrimeInfo example_small 2 99 = Ok (20, example_small) /\
  20 = (match value_of example_small 2 with Some w => w | None => 99 end) /\
  (forall old : Z, Lookup example_small 2 (Some old) = Ok (true, Some 20)) /\
  (forall (x : Z) (pVal : option Z),
     Equals 2 x = false -> Lookup example_small x pVal = Lookup example_small x pVal) /\
  Z.of_nat (length (entries example_small))
  = Z.of_nat (length (entries example_small))
    + (match value_of example_small 2 with Some _ => 0 | None => 1 end).
Proof.
  split; [vm_compute; reflexivity|].
  split; [exists example_small_ops; vm_compute; reflexivity|].
  split; [vm_compute; reflexivity|].
  refine (Emplace_keeps_existing jitPrimeInfo example_small 2 99 20 example_small _ _ _).
  - vm_compute. reflexivity.
  - exists example_small_ops. vm_compute. reflexivity.
  - vm_compute. reflexivity.
Defined.

Lemma subscript_agrees_with_Lookup_witness :
  forallb magic_okb jitPrimeInfo = true /\
  reachable jitPrimeInfo example_small /\
  LookupPointer example_small 2 = Ok (Some 20) /\
  Lookup example_small 2 (Some 0) = Ok (true, Some 20) /\
  subscript example_small 2 = Ok 20.
Proof.
  split; [vm_compute; reflexivity|].
  split; [exists example_small_ops; vm_compute; reflexivity|].
  refine (subscript_agrees_with_Lookup jitPrimeInfo example_small 2 0 _ _).
  - vm_compute. reflexivity.
  - exists example_small_ops. vm_compute. reflexivity.
Defined.

Lemma buckets_consistent_witness :
  reachable jitPrimeInfo example_small /\
  m_table example_small = Some example_small_buckets /\
  m_tableSizeInfo example_small ∈ jitPrimeInfo /\
  length example_small_buckets = Z.to_nat (bucket_count example_small) /\
  m_tableMax example_small = density_threshold (bucket_count example_small) /\
  (forall (i : nat) (head : chain Z Z) n,
     example_small_buckets !! i = Some head -> n ∈ head ->
     hash_of (m_key n) mod bucket_count example_small = Z.of_nat i) /\
  distinct_keys (entries example_small).
Proof.
  split; [exists example_small_ops; vm_compute; reflexivity|].
  split; [reflexivity|].
  refine (buckets_consistent jitPrimeInfo example_small example_small_buckets _ _).
  - exists example_small_ops. vm_compute. reflexivity.
  - reflexivity.
Defined.

Lemma GetIndexForKey_in_bounds_witness :
  forallb magic_okb jitPrimeInfo = true /\
  reachable jitPrimeInfo example_small /\
  m_table example_small = Some example_small_buckets /\
  GetIndexForKey example_small 11 = Ok (hash_of 11 mod bucket_count example_small) /\
  0 <= hash_of 11 mod bucket_count example_small < bucket_count example_small /\
  exists head,
    read_bucket (m_table example_small) (hash_of 11 mod bucket_count example_small)
    = Ok head.
Proof.
  split; [vm_compute; reflexivity|].
  split; [exists example_small_ops; vm_compute; reflexivity|].
  split; [reflexivity|].
  refine (GetIndexForKey_in_bounds jitPrimeInfo example_small 11 _ _ _).
  - vm_compute. reflexivity.
  - exists example_small_ops. vm_compute. reflexivity.
  - exists example_small_buckets. reflexivity.
Defined.

Lemma insertion_grows_at_threshold_witness :
  reachable jitPrimeInfo six_keys_table /\
  step jitPrimeInfo six_keys_table (OpSet 7 70 KindNone) = Ok seven_keys_table /\
  GetCount six_keys_table = m_tableMax six_keys_table /\
  NextPrime jitPrimeInfo (grow_size (GetCount six_keys_table))
  = Ok (m_tableSizeInfo seven_keys_table) /\
  m_tableMax seven_keys_table = density_threshold (bucket_count seven_keys_table) /\
  GetCount six_keys_table <= bucket_count seven_keys_table.
Proof.
  split; [exists six_keys_ops; vm_compute; reflexivity|].
  split; [vm_compute; reflexivity|].
  split; [vm_compute; reflexivity|].
  refine (insertion_grows_at_threshold jitPrimeInfo six_keys_table (OpSet 7 70 KindNone)
           seven_keys_table _ _ _).
  - exists six_keys_ops. vm_compute. reflexivity.
  - reflexivity.
  - vm_compute. reflexivity.
Defined.



Lemma Remove_keeps_order_witness :
  reachable jitPrimeInfo example_small /\
  Remove example_small 1 = Ok (true, example_removed) /\
  exists (buckets buckets' : list (chain Z Z)) (i : nat) (c1 : chain Z Z) n (c2 : chain Z Z),
    m_table example_small = Some buckets /\ m_table example_removed = Some buckets' /\
    GetIndexForKey example_small 1 = Ok (Z.of_nat i) /\
    buckets !! i = Some (c1 ++ n :: c2) /\
    buckets' !! i = Some (c1 ++ c2) /\
    (forall j : nat, j <> i -> buckets' !! j = buckets !! j) /\
    length buckets' = length buckets /\
    m_tableSizeInfo example_removed = m_tableSizeInfo example_small /\
    Equals 1 (m_key n) = true /\
    exists l1 l2, entries example_small = l1 ++ n :: l2 /\ entries example_removed = l1 ++ l2.
Proof.
  split; [exists example_small_ops; vm_compute; reflexivity|].
  split; [vm_compute; reflexivity|].
  refine (Remove_keeps_order jitPrimeInfo example_small 1 example_removed _ _).
  - exists example_small_ops. vm_compute. reflexivity.
  - vm_compute. reflexivity.
Defined.

Lemma Set_overwrites_in_place_witness :
  reachable jitPrimeInfo example_small /\
  Set_ jitPrimeInfo example_small 2 99 Overwrite = Ok (true, example_overwritten) /\
  Overwrite = Overwrite /\
  exists s1 l1 n l2,
    CheckGrowth jitPrimeInfo example_small = Ok s1 /\
    entries s1 = l1 ++ n :: l2 /\
    entries example_overwritten = l1 ++ mkNode (m_key n) 99 :: l2 /\
    Equals 2 (m_key n) = true /\
    GetCount example_overwritten = GetCount example_small.
Proof.
  split; [exists example_small_ops; vm_compute; reflexivity|].
  split; [vm_compute; reflexivity|].
  refine (Set_overwrites_in_place jitPrimeInfo example_small 2 99 Overwrite
           example_overwritten _ _).
  - exists example_small_ops. vm_compute. reflexivity.
  - vm_compute. reflexivity.
Defined.

Lemma count_within_threshold_witness :
  table_roomyb jitPrimeInfo = true /\
  forallb (fun o : op Z Z => negb (is_Reallocate o)) six_keys_ops = true /\
  run jitPrimeInfo empty_table six_keys_ops = Ok six_keys_table /\
  GetCount six_keys_table <= m_tableMax six_keys_table /\
  m_tableMax six_keys_table = density_threshold (bucket_count six_keys_table) /\
  GetCount six_keys_table = Z.of_nat (length (entries six_keys_table)) /\
  GetCount six_keys_table
  = spec_inserted (spec_run six_keys_ops) - spec_removed (spec_run six_keys_ops).
Proof.
  split; [vm_compute; reflexivity|].
  split; [vm_compute; reflexivity|].
  split; [vm_compute; reflexivity|].
  refine (count_within_threshold jitPrimeInfo six_keys_ops six_keys_table _ _ _).
  - vm_compute. reflexivity.
  - vm_compute. reflexivity.
  - vm_compute. reflexivity.
Defined.

Lemma insertion_NoMemory_witness :
  reachable one_entry_table six_keys_table /\
  GetCount six_keys_table = m_tableMax six_keys_table /\
  Forall (fun b => prime b < grow_size (GetCount six_keys_table)) one_entry_table /\
  step one_entry_table six_keys_table (OpSet 7 70 KindNone) = Err NoMemory.
Proof.
  split; [exists six_keys_ops; vm_compute; reflexivity|].
  split; [vm_compute; reflexivity|].
  split; [repeat constructor|].
  refine (insertion_NoMemory one_entry_table six_keys_table (OpSet 7 70 KindNone) _ _ _ _).
  - exists six_keys_ops. vm_compute. reflexivity.
  - reflexivity.
  - vm_compute. reflexivity.
  - right. repeat constructor.
Defined.

Lemma JitLargePrimitiveKeyFuncs_hash_witness :
  0 <= 1 < UINT_RANGE /\ 0 <= 2 < UINT_RANGE /\
  JitLargePrimitiveKeyFuncs_GetHashCode 8 (1 * UINT_RANGE + 2) = Ok (Z.lxor 1 2) /\
  JitLargePrimitiveKeyFuncs_GetHashCode 8 (2 * UINT_RANGE + 1) = Ok (Z.lxor 1 2) /\
  0 <= Z.lxor 1 2 < UINT_RANGE /\
  JitLargePrimitiveKeyFuncs_GetHashCode 4 2 = Ok 2.
Proof.
  split; [unfold UINT_RANGE; lia|]. split; [unfold UINT_RANGE; lia|].
  apply (JitLargePrimitiveKeyFuncs_hash 1 2); unfold UINT_RANGE; lia.
Defined.
